(** * DLO-HiC-Tools: fragment mapping and noise classification

    A shallow embedding of [dlo_hic/tools/main_process/noise_reduce.py]:
    [find_frag], [bedpe_type] and the per-record body of [worker], with the
    numpy and dict operations they call.

    Modelling conventions.
    - Python [int] values are unbounded integers of [Z]. The elements of the
      numpy position arrays are 64-bit integers: an arithmetic operation with
      such an element gives a 64-bit result that wraps around, written out
      with [wrap64]. The Python ints handed to numpy ([start], the end search
      point, [mid]) are taken to fit in 64 bits, as positions do. Indices of
      an array are far from the 64-bit bounds and their arithmetic is that
      of [Z].
    - A raised exception is a value of [exn]; a call returns [Ok v] or
      [Raise e], and a raise cuts the rest of the function as in Python.
    - The dict of restriction sites is a [gmap string (list Z)].
    - The string constants of the source (['s'], ['e'], ["normal"], ...)
      are kept as strings. *)

From stdpp Require Import gmap strings list.
From Stdlib Require Import ZArith Lia DecimalString.

Local Open Scope string_scope.
Local Open Scope Z_scope.

(** ** Exceptions and results *)

Inductive exn : Type :=
  | AssertionError
  | IndexError
  | KeyError (key : string)
  | TypeError.

Inductive result (A : Type) : Type :=
  | Ok (a : A)
  | Raise (e : exn).

Arguments Ok {A} a.
Arguments Raise {A} e.

Definition bind {A B : Type} (c : result A) (k : A -> result B) : result B :=
  match c with
  | Ok a => k a
  | Raise e => Raise e
  end.

Notation "'do' x <- c ;; k" := (bind c (fun x => k))
  (at level 10, x name, c at level 99, k at level 200).

(** ** numpy and dict primitives *)

(** The value a result of int64 arithmetic wraps around to. *)
Definition wrap64 (z : Z) : Z := (z + 2 ^ 63) mod 2 ^ 64 - 2 ^ 63.

(** A position of the data model: a non-negative coordinate that an int64
    array can hold. *)
Definition is_position (z : Z) : bool := (0 <=? z) && (z <? 2 ^ 63).

(** An array of positions. *)
Definition all_positions (arr : list Z) : bool := forallb is_position arr.

(** The loop of numpy's binary search for [side='right'] on one key:
    [while min_idx < max_idx: mid_idx = min_idx + ((max_idx - min_idx) >> 1);
     if arr[mid_idx] <= key_val: min_idx = mid_idx + 1 else: max_idx = mid_idx].
    Each round shrinks [max_idx - min_idx], so the [len(arr)] rounds that
    [searchsorted_right] grants let the loop run to its exit on every array,
    ascending or not (see [binsearch_right_enough_fuel]). *)
Fixpoint binsearch_right (fuel : nat) (arr : list Z) (key_val : Z)
    (min_idx max_idx : nat) : nat :=
  match fuel with
  | O => min_idx
  | S fuel' =>
      if (min_idx <? max_idx)%nat then
        let mid_idx := (min_idx + Nat.div2 (max_idx - min_idx))%nat in
        let mid_val := nth mid_idx arr 0 in
        if mid_val <=? key_val
        then binsearch_right fuel' arr key_val (mid_idx + 1)%nat max_idx
        else binsearch_right fuel' arr key_val min_idx mid_idx
      else min_idx
  end.

(** [arr.searchsorted(v, side='right')]. *)
Definition searchsorted_right (arr : list Z) (v : Z) : Z :=
  Z.of_nat (binsearch_right (length arr) arr v 0 (length arr)).

(** [arr[i]] on a one-dimensional numpy array: a negative index counts from
    the end, an index outside [-len, len) raises [IndexError]. *)
Definition ndarray_getitem (arr : list Z) (i : Z) : result Z :=
  let n := Z.of_nat (length arr) in
  if (0 <=? i) && (i <? n) then Ok (nth (Z.to_nat i) arr 0)
  else if (- n <=? i) && (i <? 0) then Ok (nth (Z.to_nat (i + n)) arr 0)
  else Raise IndexError.

(** [d[k]] on a dict: [KeyError(k)] when the key is absent. *)
Definition dict_getitem {V : Type} (d : gmap string V) (k : string) : result V :=
  match d !! k with
  | Some v => Ok v
  | None => Raise (KeyError k)
  end.

(** The invariant of the restriction-site table: positions of a chromosome
    are ascending (the loader delivers them strictly increasing; the proofs
    below only need that they never decrease). *)
Fixpoint ascending (sites : list Z) : bool :=
  match sites with
  | [] => true
  | x :: rest =>
      match rest with
      | [] => true
      | y :: _ => (x <=? y) && ascending rest
      end
  end.

(** ** find_frag *)

Definition frag : Type := (Z * string)%type.

Definition find_frag (rest_sites : list Z) (start end_ rest_site_len : Z)
    : result frag :=
  let end_search_point := end_ - rest_site_len - 1 in
  if negb (start <? end_search_point) then Raise AssertionError else
  let sites := rest_sites in
  let mid := (start + end_) / 2 in
  let frag_idx_s := searchsorted_right sites start in
  let frag_idx_e := searchsorted_right sites end_search_point in
  if frag_idx_s =? frag_idx_e then
    let frag_idx := frag_idx_s in
    do frag_start <- ndarray_getitem sites (frag_idx - 1);;
    do frag_end <- ndarray_getitem sites frag_idx;;
    if frag_idx =? 0 then Ok (frag_idx, "e")
    else if frag_idx =? Z.of_nat (length sites) then Ok (frag_idx, "s")
    else
      let left_span := wrap64 (mid - frag_start) in
      let right_span := wrap64 (frag_end - mid) in
      if left_span <? right_span then Ok (frag_idx, "s")
      else Ok (frag_idx, "e")
  else
    do frag_start <- ndarray_getitem sites (frag_idx_s - 1);;
    do mid_frag_pos <- ndarray_getitem sites frag_idx_s;;
    do frag_end <- ndarray_getitem sites frag_idx_e;;
    if frag_idx_s =? 0 then Ok (frag_idx_s, "e")
    else if frag_idx_e =? Z.of_nat (length sites) then Ok (frag_idx_e, "s")
    else
      let left_span := wrap64 (start - frag_start) in
      let right_span := wrap64 (wrap64 (frag_end - end_search_point) - 1) in
      if left_span <? right_span then Ok (frag_idx_s, "s")
      else Ok (frag_idx_e, "e").

(** ** bedpe_type *)

(** The fields of one parsed bedpe line, as [parse_line_bedpe] hands them to
    the classifier: the six leading fields that [bedpe_items[:6]] unpacks,
    and the remaining fields (already as the text [str] gives them). *)
Record BedpeItems : Type := mkBedpeItems {
  chr1 : string;
  start1 : Z;
  end1 : Z;
  chr2 : string;
  start2 : Z;
  end2 : Z;
  passthrough : list string
}.

(** What a call of [bedpe_type] evaluates to: [Some] of the returned triple,
    or Python's [None] when control falls off the end of the function. *)
Definition bedpe_result : Type := option (string * option frag * option frag).

Definition bedpe_type (rest_sites : gmap string (list Z))
    (bedpe_items : BedpeItems) (threshold_span rest_site_len : Z)
    : result bedpe_result :=
  let '(mkBedpeItems chr1 start1 end1 chr2 start2 end2 _) := bedpe_items in
  if negb (String.eqb chr1 chr2) then
    if negb (threshold_span =? -1) then Ok (Some ("normal", None, None))
    else
      do sites1 <- dict_getitem rest_sites chr1;;
      do frag1 <- find_frag sites1 start1 end1 rest_site_len;;
      do sites2 <- dict_getitem rest_sites chr2;;
      do frag2 <- find_frag sites2 start2 end2 rest_site_len;;
      Ok (Some ("normal", Some frag1, Some frag2))
  else
    let span := Z.abs (start1 - start2) in
    if (span >? threshold_span) && negb (threshold_span =? -1) then
      if negb (threshold_span =? -1) then Ok (Some ("normal", None, None))
      else Ok None
    else
      do sites <- dict_getitem rest_sites chr1;;
      do frag1 <- find_frag sites start1 end1 rest_site_len;;
      do frag2 <- find_frag sites start2 end2 rest_site_len;;
      if fst frag1 =? fst frag2 then
        Ok (Some ("self-ligation", Some frag1, Some frag2))
      else if (fst frag2 - fst frag1 =? 1) && String.eqb (snd frag2) "s"
              && String.eqb (snd frag1) "e" then
        Ok (Some ("re-ligation", Some frag1, Some frag2))
      else
        Ok (Some ("normal", Some frag1, Some frag2)).

(** The record with its two ends exchanged. *)
Definition swap_ends (b : BedpeItems) : BedpeItems :=
  mkBedpeItems (chr2 b) (start2 b) (end2 b) (chr1 b) (start1 b) (end1 b)
               (passthrough b).

(** ** worker: the body of the loop over the records of a chunk *)

Definition tab : string := String (Ascii.ascii_of_nat 9) EmptyString.
Definition newline : string := String (Ascii.ascii_of_nat 10) EmptyString.

(** [str(i)] of a Python int. *)
Definition str_int (i : Z) : string := NilZero.string_of_int (Z.to_int i).

(** [[str(i) for i in items]]. *)
Definition str_items (items : BedpeItems) : list string :=
  [chr1 items; str_int (start1 items); str_int (end1 items);
   chr2 items; str_int (start2 items); str_int (end2 items)]
  ++ passthrough items.

(** What a worker owns while it runs: the lines written so far to its three
    files, the local counts [(normal, sel, re)], and the exceptions it has
    handed to [log.warning]. *)
Record worker_state : Type := mkWorkerState {
  output_f : list string;
  err_sel_f : list string;
  err_re_f : list string;
  l_counts : Z * Z * Z;
  warnings : list exn
}.

Definition init_state : worker_state := mkWorkerState [] [] [] (0, 0, 0) [].

(** The state after [log.warning(str(e)); continue] on [KeyError(k)]: files
    and counts as before, one more warning. *)
Definition skipped (st : worker_state) (k : string) : worker_state :=
  mkWorkerState (output_f st) (err_sel_f st) (err_re_f st) (l_counts st)
                (warnings st ++ [KeyError k]).

(** One round of [for items in chunk]. An exception other than [KeyError]
    is not caught and ends the worker; unpacking [None] or subscripting it
    raises [TypeError]. *)
Definition worker_record (rest_sites : gmap string (list Z))
    (rest_site_len threshold_span : Z) (st : worker_state)
    (items : BedpeItems) : result worker_state :=
  match bedpe_type rest_sites items threshold_span rest_site_len with
  | Raise (KeyError k) => Ok (skipped st k)
  | Raise e => Raise e
  | Ok None => Raise TypeError
  | Ok (Some (type_, frag1, frag2)) =>
      let out_line := String.concat tab (str_items items) in
      do out_line <-
        match frag1 with
        | Some f1 =>
            match frag2 with
            | Some f2 =>
                Ok (out_line ++ tab ++ str_int (fst f1) ++ "-" ++ snd f1
                             ++ tab ++ str_int (fst f2) ++ "-" ++ snd f2)%string
            | None => Raise TypeError
            end
        | None => Ok out_line
        end;;
      let out_line := (out_line ++ newline)%string in
      let '(n, s, r) := l_counts st in
      if String.eqb type_ "normal" then
        Ok (mkWorkerState (output_f st ++ [out_line]) (err_sel_f st)
                          (err_re_f st) (n + 1, s, r) (warnings st))
      else if String.eqb type_ "self-ligation" then
        Ok (mkWorkerState (output_f st) (err_sel_f st ++ [out_line])
                          (err_re_f st) (n, s + 1, r) (warnings st))
      else if String.eqb type_ "re-ligation" then
        Ok (mkWorkerState (output_f st) (err_sel_f st)
                          (err_re_f st ++ [out_line]) (n, s, r + 1) (warnings st))
      else Ok st
  end.

(** [for items in chunk: ...]. *)
Fixpoint worker_chunk (rest_sites : gmap string (list Z))
    (rest_site_len threshold_span : Z) (st : worker_state)
    (chunk : list BedpeItems) : result worker_state :=
  match chunk with
  | [] => Ok st
  | items :: chunk' =>
      do st' <- worker_record rest_sites rest_site_len threshold_span st items;;
      worker_chunk rest_sites rest_site_len threshold_span st' chunk'
  end.

(** * Around the classifier

    The rest of [noise_reduce.py] (the worker loop and the pool of [_main],
    [read_chunk], [load_rest_sites] for gzipped bed files, the file of
    [log_counts]) and three functions of the other tools
    ([possible_frag_len], the loop of [remove_redundancy], [make_batchs]).

    Further conventions.
    - A text file being read is the list of its lines not yet read.
    - Code of this repository that is not at hand ([parse_line_bedpe],
      [parse_line_bed6], the class [Bedpe]) is a parameter: a parser is a
      function on a well-formed line, a parsed bed6 line is a record of the
      fields used.
    - The worker processes are a step relation: a step is one worker dealing
      with one message of the queue. *)

(** ** worker: the loop over the queue *)

(** [counts[k] += l_counts[i]] for the three keys of the shared [counts]
    dict of [_main], held as the triple (normal, self-ligation,
    re-ligation). *)
Definition counts_add (counts l : Z * Z * Z) : Z * Z * Z :=
  let '(n, s, r) := counts in
  let '(ln, ls, lr) := l in
  (n + ln, s + ls, r + lr).

(** How a run of [worker] ends: it met its [None] and merged its counts, an
    uncaught exception ended it, or it waits in [task_queue.get()]. *)
Inductive outcome : Type :=
  | Finished (st : worker_state) (counts : Z * Z * Z)
  | Crashed (e : exn)
  | Waiting (st : worker_state).

(** The [while 1] loop of [worker] on the messages it takes from the queue,
    from the state [st]; [counts] is the shared dict at the time the worker
    holds the lock. *)
Fixpoint worker_loop (rest_sites : gmap string (list Z))
    (rest_site_len threshold_span : Z) (st : worker_state)
    (msgs : list (option (list BedpeItems))) (counts : Z * Z * Z) : outcome :=
  match msgs with
  | [] => Waiting st
  | None :: _ => Finished st (counts_add counts (l_counts st))
  | Some chunk :: msgs' =>
      match worker_chunk rest_sites rest_site_len threshold_span st chunk with
      | Ok st' =>
          worker_loop rest_sites rest_site_len threshold_span st' msgs' counts
      | Raise e => Crashed e
      end
  end.

(** [worker]: fresh files and [l_counts = [0, 0, 0]], then the loop. *)
Definition worker (rest_sites : gmap string (list Z))
    (rest_site_len threshold_span : Z)
    (msgs : list (option (list BedpeItems))) (counts : Z * Z * Z) : outcome :=
  worker_loop rest_sites rest_site_len threshold_span init_state msgs counts.

(** The state [st] followed by what a run from fresh files wrote, counted
    and logged ([d]). *)
Definition state_app (st d : worker_state) : worker_state :=
  mkWorkerState (output_f st ++ output_f d) (err_sel_f st ++ err_sel_f d)
                (err_re_f st ++ err_re_f d)
                (counts_add (l_counts st) (l_counts d))
                (warnings st ++ warnings d).

(** The number of lines in each of the three files of a worker. *)
Definition lines_written (st : worker_state) : Z * Z * Z :=
  (Z.of_nat (length (output_f st)), Z.of_nat (length (err_sel_f st)),
   Z.of_nat (length (err_re_f st))).

(** The records a state accounts for: the three counts and the warnings. *)
Definition accounted (st : worker_state) : Z :=
  let '(n, s, r) := l_counts st in
  n + s + r + Z.of_nat (length (warnings st)).

(** ** The pool of workers of [_main] *)

(** A worker process of the pool: in its loop with state [st], ended after
    its [None] (counts merged), or ended by an uncaught exception. *)
Inductive wstatus : Type :=
  | Running (st : worker_state)
  | Exited (st : worker_state)
  | Dead (e : exn).

(** The processes of [_main] while the workers run: the messages still on
    [task_queue], the workers, and the shared [counts]. *)
Record pool : Type := mkPool {
  p_queue : list (option (list BedpeItems));
  p_workers : list wstatus;
  p_counts : Z * Z * Z
}.

(** One step of the pool: some running worker takes the next message off
    the queue and deals with it. A worker shares nothing with the others
    but the queue, the read-only sites and the lock-protected [counts], so
    its work on a chunk is one step; which worker takes which message is
    left open. *)
Inductive pool_step (rest_sites : gmap string (list Z))
    (rest_site_len threshold_span : Z) : pool -> pool -> Prop :=
  | step_chunk (q : list (option (list BedpeItems))) (ws : list wstatus)
      (c : Z * Z * Z) (i : nat) (st st' : worker_state) (chunk : list BedpeItems) :
      ws !! i = Some (Running st) ->
      worker_chunk rest_sites rest_site_len threshold_span st chunk = Ok st' ->
      pool_step rest_sites rest_site_len threshold_span
        (mkPool (Some chunk :: q) ws c)
        (mkPool q (<[i := Running st']> ws) c)
  | step_crash (q : list (option (list BedpeItems))) (ws : list wstatus)
      (c : Z * Z * Z) (i : nat) (st : worker_state) (chunk : list BedpeItems)
      (e : exn) :
      ws !! i = Some (Running st) ->
      worker_chunk rest_sites rest_site_len threshold_span st chunk = Raise e ->
      pool_step rest_sites rest_site_len threshold_span
        (mkPool (Some chunk :: q) ws c)
        (mkPool q (<[i := Dead e]> ws) c)
  | step_exit (q : list (option (list BedpeItems))) (ws : list wstatus)
      (c : Z * Z * Z) (i : nat) (st : worker_state) :
      ws !! i = Some (Running st) ->
      pool_step rest_sites rest_site_len threshold_span
        (mkPool (None :: q) ws c)
        (mkPool q (<[i := Exited st]> ws) (counts_add c (l_counts st))).

(** The pool as [_main] sets it up: the chunks, one [None] per worker, the
    workers with fresh files, and zero counts. *)
Definition pool_init (chunks : list (list BedpeItems)) (processes : nat) : pool :=
  mkPool (map Some chunks ++ replicate processes None)
         (replicate processes (Running init_state))
         (0, 0, 0).

(** The local counts of the workers still in their loop, added up. *)
Fixpoint running_counts (ws : list wstatus) : Z * Z * Z :=
  match ws with
  | [] => (0, 0, 0)
  | Running st :: ws' => counts_add (l_counts st) (running_counts ws')
  | _ :: ws' => running_counts ws'
  end.

(** The number of workers that have met their [None]. *)
Fixpoint exited (ws : list wstatus) : nat :=
  match ws with
  | [] => 0
  | Exited _ :: ws' => S (exited ws')
  | _ :: ws' => exited ws'
  end.

(** No worker of the pool has crashed. *)
Fixpoint no_dead (ws : list wstatus) : bool :=
  match ws with
  | [] => true
  | Dead _ :: _ => false
  | _ :: ws' => no_dead ws'
  end.

(** Every worker of the pool has met its [None]: [w.join()] has returned
    for all of them and none has crashed. *)
Fixpoint all_exited (ws : list wstatus) : bool :=
  match ws with
  | [] => true
  | Exited _ :: ws' => all_exited ws'
  | _ :: _ => false
  end.

(** What every pool reachable from [pool_init chunks processes] satisfies:
    the queue holds the chunks not yet taken ([todo]) and one [None] per
    worker that has not exited; and as long as no worker has crashed, the
    merged counts and the local counts of the running workers add up to the
    counts of one loop over the records of the chunks taken so far
    ([taken]). *)
Definition pool_inv (rest_sites : gmap string (list Z))
    (rest_site_len threshold_span : Z) (chunks : list (list BedpeItems))
    (processes : nat) (p : pool) : Prop :=
  exists (taken todo : list (list BedpeItems)) (k : nat),
    chunks = (taken ++ todo)%list /\
    p_queue p = (map Some todo ++ replicate k None)%list /\
    length (p_workers p) = processes /\
    (k + exited (p_workers p) = processes)%nat /\
    ((k < processes)%nat -> todo = []) /\
    (no_dead (p_workers p) = true ->
     exists d,
       worker_chunk rest_sites rest_site_len threshold_span init_state
                    (concat taken) = Ok d /\
       counts_add (p_counts p) (running_counts (p_workers p)) = l_counts d).

(** ** read_chunk and the reading loop of [_main] *)

(** What a call of [read_chunk] does: it returns a chunk and leaves the file
    at the lines not yet read, or it raises [StopIteration]. *)
Inductive chunk_read : Type :=
  | Chunk (chunk : list BedpeItems) (file : list string)
  | StopIteration.

(** [for i in range(chunk_size)] of [read_chunk], with [rounds] rounds to go
    from round [i]. The file is the list of its lines not yet read:
    [readline] gives the first of them, or [''] when none is left.
    [parse_line_bedpe] is the parser of [dlo_hic.utils.parse_text]. *)
Fixpoint read_chunk_loop (parse_line_bedpe : string -> BedpeItems)
    (rounds i : nat) (file : list string) (chunk : list BedpeItems)
    : chunk_read :=
  match rounds with
  | O => Chunk chunk file
  | S rounds' =>
      match file with
      | [] => if (i =? 0)%nat then StopIteration else Chunk chunk file
      | line :: file' =>
          read_chunk_loop parse_line_bedpe rounds' (S i) file'
                          (chunk ++ [parse_line_bedpe line])
      end
  end.

Definition read_chunk (parse_line_bedpe : string -> BedpeItems)
    (file : list string) (chunk_size : Z) : chunk_read :=
  read_chunk_loop parse_line_bedpe (Z.to_nat chunk_size) 0 file [].

(** [while 1: try: task_queue.put(read_chunk(f)) except StopIteration: break]
    of [_main], for at most [fuel] calls of [read_chunk]: the chunks put on
    the queue, or [None] when the loop has not ended by then. *)
Fixpoint read_all (parse_line_bedpe : string -> BedpeItems) (fuel : nat)
    (file : list string) (chunk_size : Z) (queue : list (list BedpeItems))
    : option (list (list BedpeItems)) :=
  match fuel with
  | O => None
  | S fuel' =>
      match read_chunk parse_line_bedpe file chunk_size with
      | StopIteration => Some queue
      | Chunk chunk file' =>
          read_all parse_line_bedpe fuel' file' chunk_size (queue ++ [chunk])
      end
  end.

(** ** load_rest_sites, for a gzipped bed file *)

(** The fields of a bed6 line that [load_rest_sites] uses, as
    [parse_line_bed6] gives them. *)
Record Bed6 : Type := mkBed6 {
  bed_chr : string;
  bed_start : Z;
  bed_end : Z
}.

(** [for idx, line in enumerate(f)]: the length of the restriction site is
    taken from the first line, and [start] is appended to the list of its
    chromosome, created on first use. [rest_site_len] is [None] as long as
    the variable is not bound. *)
Fixpoint load_rest_sites_loop (idx : nat) (lines : list Bed6)
    (rest_sites : gmap string (list Z)) (rest_site_len : option Z)
    : gmap string (list Z) * option Z :=
  match lines with
  | [] => (rest_sites, rest_site_len)
  | line :: lines' =>
      let rest_site_len :=
        if (idx =? 0)%nat then Some (bed_end line - bed_start line)
        else rest_site_len in
      let rest_sites :=
        match rest_sites !! bed_chr line with
        | Some _ => rest_sites
        | None => <[bed_chr line := []]> rest_sites
        end in
      let rest_sites :=
        alter (fun l : list Z => (l ++ [bed_start line])%list) (bed_chr line)
              rest_sites in
      load_rest_sites_loop (S idx) lines' rest_sites rest_site_len
  end.

(** [load_rest_sites] on the lines of a [.gz] file; [None] is the
    [UnboundLocalError] of [return rest_sites, rest_site_len] when no line
    has bound [rest_site_len]. *)
Definition load_rest_sites (lines : list Bed6)
    : option (gmap string (list Z) * Z) :=
  let '(rest_sites, rest_site_len) := load_rest_sites_loop 0 lines ∅ None in
  match rest_site_len with
  | Some len => Some (rest_sites, len)
  | None => None
  end.

(** The start positions of the lines of chromosome [c], in file order. *)
Definition starts_of (c : string) (lines : list Bed6) : list Z :=
  map bed_start (List.filter (fun l => String.eqb (bed_chr l) c) lines).

(** ** tools/helper/fragement_legth_dist.py: possible_frag_len *)

(** [np.diff(a)] on a one-dimensional int64 array: [a[i+1] - a[i]], each
    difference wrapping around. *)
Fixpoint np_diff (a : list Z) : list Z :=
  match a with
  | x :: rest =>
      match rest with
      | y :: _ => wrap64 (y - x) :: np_diff rest
      | [] => []
      end
  | [] => []
  end.

(** [np.abs] on an int64 value: the absolute value, wrapping around (the
    least int64 value is its own absolute value). *)
Definition np_abs (x : Z) : Z := wrap64 (Z.abs x).

(** [np.abs(np.diff(np.asarray(positions)))], for a list of ints that
    [np.asarray] makes an int64 array of. *)
Definition possible_frag_len (positions : list Z) : list Z :=
  map np_abs (np_diff positions).

(** ** tools/main_process/remove_redundancy.py: remove_redundancy *)

(** The two nested loops of [remove_redundancy] over the lines of the file
    that follow the line [base] was read from: each line is skipped while it
    is a replication of [base]; the first that is not makes [base] be written
    and takes its place; at the end of the file [base] is written. The
    result is the list of the records written, in order. [Bedpe] and its
    method [is_rep_with] are those of [dlo_hic.utils.parse_text]. *)
Fixpoint remove_redundancy_loop {Bedpe : Type}
    (is_rep_with : Bedpe -> Bedpe -> Z -> bool)
    (base : Bedpe) (f : list Bedpe) (distance : Z) : list Bedpe :=
  match f with
  | [] => [base]
  | another :: f' =>
      if is_rep_with base another distance
      then remove_redundancy_loop is_rep_with base f' distance
      else base :: remove_redundancy_loop is_rep_with another f' distance
  end.

(** ** log_counts *)

(** The four lines [log_counts] writes to [log_file], for the shared counts
    of [_main] (a dict with the three keys, so [sum(counts.values())] is the
    sum of the three). The [log.info] messages, with their percentages, are
    not part of the file. *)
Definition log_counts_file (counts : Z * Z * Z) : list string :=
  let '(n, s, r) := counts in
  let total := n + s + r in
  ["normal" +:+ tab +:+ str_int n +:+ newline;
   "self-ligation" +:+ tab +:+ str_int s +:+ newline;
   "re-ligation" +:+ tab +:+ str_int r +:+ newline;
   "total" +:+ tab +:+ str_int total +:+ newline].

(** ** utils/infer_adapter.py: make_batchs *)

(** [batch_size] rounds of [batch.append(next(iter))] on
    [iter = cycle(fa_recs)]: [pending] holds what is left of the current pass
    over [fa_recs]; when it is empty the cycle starts over, and [next]
    raises [StopIteration] ([None]) when there is nothing to cycle over. The
    result is the batch and the rest of the pass. *)
Fixpoint make_batch {A : Type} (fa_recs : list A) (rounds : nat)
    (pending batch : list A) : option (list A * list A) :=
  match rounds with
  | O => Some (batch, pending)
  | S rounds' =>
      match pending with
      | x :: pending' => make_batch fa_recs rounds' pending' (batch ++ [x])
      | [] =>
          match fa_recs with
          | x :: pending' => make_batch fa_recs rounds' pending' (batch ++ [x])
          | [] => None
          end
      end
  end.

(** The batches [make_batchs] yields when it is run to its end, [n_batch]
    of them from the state [pending] of the cycle; [None] when a [next] on
    the cycle fails (the generator then ends with an error). *)
Fixpoint make_batchs_from {A : Type} (fa_recs : list A) (n_batch batch_size : nat)
    (pending : list A) : option (list (list A)) :=
  match n_batch with
  | O => Some []
  | S n_batch' =>
      match make_batch fa_recs batch_size pending [] with
      | Some (batch, pending') =>
          match make_batchs_from fa_recs n_batch' batch_size pending' with
          | Some batches => Some (batch :: batches)
          | None => None
          end
      | None => None
      end
  end.

Definition make_batchs {A : Type} (fa_recs : list A) (n_batch batch_size : nat)
    : option (list (list A)) :=
  make_batchs_from fa_recs n_batch batch_size [].



(** Restriction sites of two chromosomes, for the concrete runs. *)
Definition demo_sites : gmap string (list Z) :=
  {[ "chr1" := [100; 200; 300]; "chr2" := [400; 500] ]}.

(** * Properties *)

(** ** The binary search on ascending arrays *)

Lemma ascending_tail (x : Z) (l : list Z) :
  ascending (x :: l) = true -> ascending l = true.
Proof.
  destruct l as [|y l]; [reflexivity|].
  cbn [ascending]. intros H. apply andb_prop in H. tauto.
Qed.

Lemma ascending_head_le (l : list Z) :
  forall x i, ascending (x :: l) = true -> (i < length l)%nat -> x <= nth i l 0.
Proof.
  induction l as [|y l IH]; intros x i Hasc Hi; [simpl in Hi; lia|].
  assert (Hxy : x <= y).
  { cbn [ascending] in Hasc. apply andb_prop in Hasc. lia. }
  destruct i as [|i]; [exact Hxy|].
  simpl in Hi. cbn [nth].
  specialize (IH y i (ascending_tail _ _ Hasc)). lia.
Qed.

Lemma ascending_nth (l : list Z) :
  ascending l = true ->
  forall i j, (i <= j)%nat -> (j < length l)%nat -> nth i l 0 <= nth j l 0.
Proof.
  induction l as [|x l IH]; intros Hasc i j Hij Hj; [simpl in Hj; lia|].
  destruct i as [|i], j as [|j]; try lia.
  - cbn [nth]. apply ascending_head_le; [assumption | simpl in Hj; lia].
  - cbn [nth]. apply IH; [eapply ascending_tail; eassumption | lia | simpl in Hj; lia].
Qed.

Lemma div2_lt (n : nat) : (0 < n)%nat -> (Nat.div2 n < n)%nat.
Proof. intros H. apply Nat.lt_div2. exact H. Qed.

Section BinarySearch.

Variable arr : list Z.
Variable key_val : Z.

(** The result stays between the two bounds it starts from. *)
Lemma binsearch_right_bounds :
  forall fuel lo hi, (lo <= hi)%nat ->
    (lo <= binsearch_right fuel arr key_val lo hi <= hi)%nat.
Proof.
  induction fuel as [|fuel IH]; intros lo hi Hle; cbn [binsearch_right]; [lia|].
  destruct (Nat.ltb_spec lo hi) as [Hlt|Hge]; [|lia].
  pose proof (div2_lt (hi - lo) ltac:(lia)) as Hd.
  set (d := Nat.div2 (hi - lo)) in *. clearbody d.
  destruct (nth _ arr 0 <=? key_val).
  - specialize (IH (lo + d + 1)%nat hi ltac:(lia)). lia.
  - specialize (IH lo (lo + d)%nat ltac:(lia)). lia.
Qed.

(** Once the fuel covers [hi - lo] the loop reaches its exit test: more
    fuel does not change the result, on any array. *)
Lemma binsearch_right_enough_fuel :
  forall fuel fuel' lo hi,
    (hi - lo <= fuel)%nat -> (hi - lo <= fuel')%nat ->
    binsearch_right fuel arr key_val lo hi
      = binsearch_right fuel' arr key_val lo hi.
Proof.
  induction fuel as [|fuel IH]; intros fuel' lo hi Hf Hf'.
  - destruct fuel' as [|fuel']; [reflexivity|]. cbn [binsearch_right].
    destruct (Nat.ltb_spec lo hi); [lia|reflexivity].
  - destruct fuel' as [|fuel']; cbn [binsearch_right];
      destruct (Nat.ltb_spec lo hi) as [Hlt|Hge]; try lia; try reflexivity.
    pose proof (div2_lt (hi - lo) ltac:(lia)) as Hd.
    set (d := Nat.div2 (hi - lo)) in *. clearbody d.
    destruct (nth _ arr 0 <=? key_val); apply IH; lia.
Qed.

Hypothesis arr_ascending : ascending arr = true.

(** The loop invariant on an ascending array: everything left of
    [min_idx] is [<= key_val], everything from [max_idx] on is
    [> key_val]. With at least [hi - lo] rounds of fuel it holds of the
    result on both sides. *)
Lemma binsearch_right_invariant :
  forall fuel lo hi,
    (hi - lo <= fuel)%nat -> (lo <= hi)%nat -> (hi <= length arr)%nat ->
    (forall i, (i < lo)%nat -> nth i arr 0 <= key_val) ->
    (forall i, (hi <= i)%nat -> (i < length arr)%nat -> key_val < nth i arr 0) ->
    let r := binsearch_right fuel arr key_val lo hi in
    (forall i, (i < r)%nat -> nth i arr 0 <= key_val) /\
    (forall i, (r <= i)%nat -> (i < length arr)%nat -> key_val < nth i arr 0).
Proof.
  induction fuel as [|fuel IH]; intros lo hi Hfuel Hle Hlen Hlo Hhi;
    cbn [binsearch_right].
  - assert (lo = hi) by lia. subst hi. split; assumption.
  - destruct (Nat.ltb_spec lo hi) as [Hlt|Hge].
    + pose proof (div2_lt (hi - lo) ltac:(lia)) as Hd.
      set (d := Nat.div2 (hi - lo)) in *. clearbody d.
      set (mid := (lo + d)%nat) in *.
      assert (Hmid_lo : (lo <= mid)%nat) by (unfold mid; lia).
      assert (Hmid_hi : (mid < hi)%nat) by (unfold mid; lia).
      clearbody mid.
      destruct (Z.leb_spec (nth mid arr 0) key_val) as [Hmid|Hmid].
      * apply IH; try lia; [|assumption].
        intros i Hi.
        pose proof (ascending_nth arr arr_ascending i mid ltac:(lia) ltac:(lia)).
        lia.
      * apply IH; try lia; [assumption|].
        intros i Hi Hi'.
        pose proof (ascending_nth arr arr_ascending mid i ltac:(lia) ltac:(lia)).
        lia.
    + assert (lo = hi) by lia. subst hi. split; assumption.
Qed.

End BinarySearch.

(** [searchsorted_right] is the loop run to its exit: any fuel from
    [len(arr)] up gives its value. *)
Lemma searchsorted_right_any_fuel (arr : list Z) (v : Z) (fuel : nat) :
  (length arr <= fuel)%nat ->
  searchsorted_right arr v = Z.of_nat (binsearch_right fuel arr v 0 (length arr)).
Proof.
  intros Hfuel. unfold searchsorted_right. f_equal.
  apply binsearch_right_enough_fuel; lia.
Qed.

(** [searchsorted(v, side='right')] on an ascending array is the insertion
    point after every element [<= v]. *)
Lemma searchsorted_right_spec (arr : list Z) (v : Z) :
  ascending arr = true ->
  let r := searchsorted_right arr v in
  0 <= r <= Z.of_nat (length arr) /\
  (forall i, (i < Z.to_nat r)%nat -> nth i arr 0 <= v) /\
  (forall i, (Z.to_nat r <= i)%nat -> (i < length arr)%nat -> v < nth i arr 0).
Proof.
  intros Hasc. unfold searchsorted_right. cbv zeta.
  rewrite Nat2Z.id.
  pose proof (binsearch_right_bounds arr v (length arr) 0 (length arr) ltac:(lia)).
  split; [lia|].
  apply binsearch_right_invariant; solve [assumption | lia | intros; lia].
Qed.

(** A key below the first site is inserted at index 0. *)
Lemma searchsorted_right_below_first (arr : list Z) (v : Z) :
  ascending arr = true -> arr <> [] -> v < hd 0 arr ->
  searchsorted_right arr v = 0.
Proof.
  intros Hasc Hne Hv.
  destruct (searchsorted_right_spec arr v Hasc) as (Hr & Hleft & _).
  destruct (Z.eq_dec (searchsorted_right arr v) 0) as [->|Hnz]; [reflexivity|].
  specialize (Hleft 0%nat ltac:(lia)).
  destruct arr as [|x arr]; [congruence|]. simpl in *. lia.
Qed.

Lemma nth_length_pred_last (l : list Z) (d : Z) :
  l <> [] -> nth (length l - 1) l d = List.last l d.
Proof.
  induction l as [|x l IH]; intros Hne; [congruence|].
  destruct l as [|y l]; [reflexivity|].
  specialize (IH ltac:(discriminate)).
  cbn [length Nat.sub nth List.last] in *.
  rewrite Nat.sub_0_r in IH. exact IH.
Qed.

(** A key at or beyond the last site is inserted at index [len(arr)]. *)
Lemma searchsorted_right_beyond_last (arr : list Z) (v : Z) :
  ascending arr = true -> List.last arr 0 <= v ->
  searchsorted_right arr v = Z.of_nat (length arr).
Proof.
  intros Hasc Hv.
  destruct (searchsorted_right_spec arr v Hasc) as (Hr & _ & Hright).
  destruct (Z.eq_dec (searchsorted_right arr v) (Z.of_nat (length arr)))
    as [->|Hnz]; [reflexivity|].
  set (n := length arr) in *.
  specialize (Hright (n - 1)%nat ltac:(lia) ltac:(lia)).
  unfold n in Hright. rewrite nth_length_pred_last in Hright; [lia|].
  intros ->. simpl in *. lia.
Qed.

(** ** int64 arithmetic on positions *)

(** Inside the int64 range nothing wraps. *)
Lemma wrap64_id (z : Z) : - 2 ^ 63 <= z < 2 ^ 63 -> wrap64 z = z.
Proof. intros H. unfold wrap64. rewrite Z.mod_small by lia. lia. Qed.

Lemma wrap64_range (z : Z) : - 2 ^ 63 <= wrap64 z < 2 ^ 63.
Proof.
  unfold wrap64.
  pose proof (Z.mod_pos_bound (z + 2 ^ 63) (2 ^ 64) ltac:(lia)). lia.
Qed.

Lemma is_position_range (z : Z) : is_position z = true -> 0 <= z < 2 ^ 63.
Proof. unfold is_position. intros H. apply andb_prop in H. lia. Qed.

Lemma all_positions_nth (arr : list Z) (i : nat) :
  all_positions arr = true -> (i < length arr)%nat ->
  0 <= nth i arr 0 < 2 ^ 63.
Proof.
  unfold all_positions. rewrite forallb_forall. intros Hall Hi.
  apply is_position_range, Hall, nth_In. exact Hi.
Qed.

(** ** find_frag *)

Lemma ndarray_getitem_in_range (arr : list Z) (i : Z) :
  0 <= i < Z.of_nat (length arr) ->
  ndarray_getitem arr i = Ok (nth (Z.to_nat i) arr 0).
Proof.
  intros Hi. unfold ndarray_getitem. cbv zeta.
  destruct (Z.leb_spec 0 i); [|lia].
  destruct (Z.ltb_spec i (Z.of_nat (length arr))); [reflexivity|lia].
Qed.

Lemma ndarray_getitem_negative (arr : list Z) (i : Z) :
  - Z.of_nat (length arr) <= i < 0 ->
  ndarray_getitem arr i = Ok (nth (Z.to_nat (i + Z.of_nat (length arr))) arr 0).
Proof.
  intros Hi. unfold ndarray_getitem. cbv zeta.
  destruct (Z.leb_spec 0 i); [lia|]. cbn [andb].
  destruct (Z.leb_spec (- Z.of_nat (length arr)) i); [|lia].
  destruct (Z.ltb_spec i 0); [reflexivity|lia].
Qed.

Lemma ndarray_getitem_len (arr : list Z) :
  ndarray_getitem arr (Z.of_nat (length arr)) = Raise IndexError.
Proof.
  unfold ndarray_getitem. cbv zeta.
  destruct (Z.leb_spec 0 (Z.of_nat (length arr))); [|lia].
  destruct (Z.ltb_spec (Z.of_nat (length arr)) (Z.of_nat (length arr))); [lia|].
  cbn [andb].
  destruct (Z.ltb_spec (Z.of_nat (length arr)) 0); [lia|].
  rewrite andb_false_r. reflexivity.
Qed.

Lemma length_pos_of_nonempty (arr : list Z) :
  arr <> [] -> 0 < Z.of_nat (length arr).
Proof. destruct arr; [congruence|]. intros _. simpl. lia. Qed.

(** C2, as the code has it. With sites [100, 200, 300] and
    [rest_site_len = 10] the interval (150, 160) is too short for the
    assertion of [find_frag] ([150 < 160 - 10 - 1] is false): the call raises
    [AssertionError]. The interval (140, 170), which has the same midpoint
    155 and passes the assertion, is mapped to fragment 1 with side ['e']
    (distances 55 and 45). *)
Theorem find_frag_scenario_amended :
  find_frag [100; 200; 300] 150 160 10 = Raise AssertionError /\
  (140 + 170) / 2 = 155 /\
  find_frag [100; 200; 300] 140 170 10 = Ok (1, "e").
Proof. repeat split. Qed.

(** C2, refuted as stated: on the interval (150, 160) the call does not
    return fragment 1 with side ['e']; it returns nothing at all. *)
Lemma find_frag_scenario_counterexample :
  find_frag [100; 200; 300] 150 160 10 <> Ok (1, "e") /\
  forall f, find_frag [100; 200; 300] 150 160 10 <> Ok f.
Proof. split; [discriminate | intros f; discriminate]. Qed.

(** C3, what the code does: for a non-empty ascending sites array and an
    interval that passes the assertion and starts at or beyond the last site
    (its end search point is then beyond it too), both insertion points are
    [len(sites)], and [frag_end = sites[frag_idx]] raises [IndexError]
    before the branch [frag_idx == sites.shape[0]] is reached: no fragment
    is returned. *)
Theorem find_frag_right_of_last_raises (sites : list Z) (start end_ rest_site_len : Z) :
  ascending sites = true ->
  sites <> [] ->
  start < end_ - rest_site_len - 1 ->
  List.last sites 0 <= start ->
  find_frag sites start end_ rest_site_len = Raise IndexError.
Proof.
  intros Hasc Hne Hpre Hlast.
  pose proof (length_pos_of_nonempty sites Hne) as Hlen.
  unfold find_frag. cbv zeta.
  destruct (Z.ltb_spec start (end_ - rest_site_len - 1)); [|lia]. cbn [negb].
  rewrite !searchsorted_right_beyond_last by (assumption || lia).
  rewrite Z.eqb_refl.
  rewrite ndarray_getitem_in_range by lia.
  rewrite ndarray_getitem_len. reflexivity.
Qed.

Lemma find_frag_right_of_last_raises_witness :
  find_frag [100; 200; 300] 350 400 10 = Raise IndexError.
Proof.
  apply (find_frag_right_of_last_raises [100; 200; 300] 350 400 10).
  - reflexivity.
  - discriminate.
  - lia.
  - simpl. lia.
Defined.

(** C4: for a non-empty ascending sites array and an interval that passes
    the assertion and whose two search points ([start] and
    [end - rest_site_len - 1]) are strictly below the first site,
    [find_frag] returns fragment 0 with side ['e']. *)
Theorem find_frag_left_of_first (sites : list Z) (start end_ rest_site_len : Z) :
  ascending sites = true ->
  sites <> [] ->
  start < end_ - rest_site_len - 1 ->
  start < hd 0 sites ->
  end_ - rest_site_len - 1 < hd 0 sites ->
  find_frag sites start end_ rest_site_len = Ok (0, "e").
Proof.
  intros Hasc Hne Hpre Hs He.
  pose proof (length_pos_of_nonempty sites Hne) as Hlen.
  unfold find_frag. cbv zeta.
  destruct (Z.ltb_spec start (end_ - rest_site_len - 1)); [|lia]. cbn [negb].
  rewrite !searchsorted_right_below_first by assumption.
  cbn [Z.eqb].
  rewrite ndarray_getitem_negative by lia.
  rewrite ndarray_getitem_in_range by lia.
  reflexivity.
Qed.

Lemma find_frag_left_of_first_witness :
  find_frag [100; 200; 300] 10 50 10 = Ok (0, "e").
Proof.
  apply (find_frag_left_of_first [100; 200; 300] 10 50 10).
  - reflexivity.
  - discriminate.
  - lia.
  - simpl. lia.
  - simpl. lia.
Defined.

(** C8: in the same-gap case (both insertion points equal [idx], with
    [0 < idx < len(sites)]), for positions of the data model (the sites and
    the two ends of the interval are non-negative and fit the int64 array),
    [find_frag] returns fragment [idx], with side ['s'] exactly when
    [mid - sites[idx-1] < sites[idx] - mid] for [mid = (start + end) // 2],
    and side ['e'] otherwise; so equal distances give ['e']. *)
Theorem find_frag_same_gap_side (sites : list Z) (start end_ rest_site_len idx : Z) :
  all_positions sites = true ->
  0 <= start < 2 ^ 63 ->
  0 <= end_ < 2 ^ 63 ->
  start < end_ - rest_site_len - 1 ->
  searchsorted_right sites start = idx ->
  searchsorted_right sites (end_ - rest_site_len - 1) = idx ->
  0 < idx < Z.of_nat (length sites) ->
  let mid := (start + end_) / 2 in
  let left_site := nth (Z.to_nat (idx - 1)) sites 0 in
  let right_site := nth (Z.to_nat idx) sites 0 in
  exists pos,
    find_frag sites start end_ rest_site_len = Ok (idx, pos) /\
    (pos = "s" <-> mid - left_site < right_site - mid) /\
    (pos = "e" <-> ~ mid - left_site < right_site - mid) /\
    (mid - left_site = right_site - mid -> pos = "e").
Proof.
  intros Hsites Hstart Hend Hpre Hs He Hidx mid left_site right_site.
  assert (Hmid : 0 <= mid < 2 ^ 63).
  { unfold mid. split; [apply Z.div_pos; lia | apply Z.div_lt_upper_bound; lia]. }
  pose proof (all_positions_nth sites (Z.to_nat (idx - 1)) Hsites ltac:(lia))
    as Hleft.
  pose proof (all_positions_nth sites (Z.to_nat idx) Hsites ltac:(lia))
    as Hright.
  fold left_site in Hleft. fold right_site in Hright.
  unfold find_frag. cbv zeta.
  destruct (Z.ltb_spec start (end_ - rest_site_len - 1)); [|lia]. cbn [negb].
  rewrite Hs, He, Z.eqb_refl.
  rewrite !ndarray_getitem_in_range by lia.
  cbn [bind].
  destruct (Z.eqb_spec idx 0); [lia|].
  destruct (Z.eqb_spec idx (Z.of_nat (length sites))); [lia|].
  fold mid left_site right_site.
  rewrite !wrap64_id by lia.
  destruct (Z.ltb_spec (mid - left_site) (right_site - mid)) as [Hlt|Hge].
  - exists "s". repeat split; try (intros; congruence || lia); discriminate.
  - exists "e". repeat split; try (intros; congruence || lia); discriminate.
Qed.

Lemma find_frag_same_gap_side_witness :
  exists pos,
    find_frag [100; 200; 300] 140 180 10 = Ok (1, pos) /\
    (pos = "s" <-> (140 + 180) / 2 - 100 < 200 - (140 + 180) / 2) /\
    (pos = "e" <-> ~ (140 + 180) / 2 - 100 < 200 - (140 + 180) / 2) /\
    ((140 + 180) / 2 - 100 = 200 - (140 + 180) / 2 -> pos = "e").
Proof.
  apply (find_frag_same_gap_side [100; 200; 300] 140 180 10 1).
  - reflexivity.
  - lia.
  - lia.
  - lia.
  - reflexivity.
  - reflexivity.
  - simpl. lia.
Defined.

(** The tie of C8 on a run: midpoint 150 is 50 away from both bounding sites
    and the side is ['e']. *)
Example find_frag_tie_is_end :
  find_frag [100; 200; 300] 130 170 10 = Ok (1, "e").
Proof. reflexivity. Qed.

(** Outside the data model the int64 subtraction wraps around: with a site
    near the least int64 value the left span comes out negative, and the
    side is ['s'] although the midpoint is much nearer to the right site. *)
Example find_frag_same_gap_wraps :
  find_frag [-9223372036854775798; 4611686018427388104]
            4611686018427387904 4611686018427388020 10 = Ok (1, "s").
Proof. vm_compute. reflexivity. Qed.

(** ** bedpe_type *)

(** Case analysis on the tests a definition branches on. *)
Ltac case_tests :=
  repeat match goal with
  | |- context [String.eqb ?a ?b] => destruct (String.eqb_spec a b)
  | |- context [Z.eqb ?a ?b] => destruct (Z.eqb_spec a b)
  | |- context [Z.ltb ?a ?b] => destruct (Z.ltb_spec a b)
  | |- context [Z.gtb ?a ?b] => rewrite (Z.gtb_ltb a b)
  end; cbn [negb andb orb bind].

Lemma dict_getitem_Some {V : Type} (d : gmap string V) (k : string) (v : V) :
  d !! k = Some v -> dict_getitem d k = Ok v.
Proof. intros H. unfold dict_getitem. rewrite H. reflexivity. Qed.

Lemma dict_getitem_None {V : Type} (d : gmap string V) (k : string) :
  d !! k = None -> dict_getitem d k = Raise (KeyError k).
Proof. intros H. unfold dict_getitem. rewrite H. reflexivity. Qed.

Lemma dict_getitem_Ok {V : Type} (d : gmap string V) (k : string) (v : V) :
  dict_getitem d k = Ok v -> d !! k = Some v.
Proof. unfold dict_getitem. destruct (d !! k); congruence. Qed.

(** C1: on a same-chromosome pair whose span does not take the distance
    short-circuit and whose two ends are mapped to [frag1] and [frag2],
    [bedpe_type] returns both fragments, with "self-ligation" exactly when
    the fragment indices are equal, "re-ligation" exactly when
    [frag2[0] - frag1[0] == 1], [frag2[1] == 's'] and [frag1[1] == 'e'], and
    "normal" exactly when neither holds. *)
Theorem bedpe_type_mapped_same_chromosome
    (rest_sites : gmap string (list Z)) (items : BedpeItems)
    (threshold_span rest_site_len : Z) (sites : list Z) (frag1 frag2 : frag) :
  chr1 items = chr2 items ->
  Z.abs (start1 items - start2 items) <= threshold_span \/ threshold_span = -1 ->
  rest_sites !! chr1 items = Some sites ->
  find_frag sites (start1 items) (end1 items) rest_site_len = Ok frag1 ->
  find_frag sites (start2 items) (end2 items) rest_site_len = Ok frag2 ->
  let adjacent :=
    fst frag2 - fst frag1 = 1 /\ snd frag2 = "s" /\ snd frag1 = "e" in
  exists type_,
    bedpe_type rest_sites items threshold_span rest_site_len
      = Ok (Some (type_, Some frag1, Some frag2)) /\
    (type_ = "self-ligation" <-> fst frag1 = fst frag2) /\
    (type_ = "re-ligation" <-> adjacent) /\
    (type_ = "normal" <-> fst frag1 <> fst frag2 /\ ~ adjacent).
Proof.
  destruct items as [c1 s1 e1 c2 s2 e2 rest].
  cbn [chr1 chr2 start1 start2 end1 end2]. cbv zeta.
  intros Hchr Hspan Hsites Hf1 Hf2. subst c2.
  unfold bedpe_type.
  rewrite String.eqb_refl. cbn [negb].
  assert (Hguard : (Z.abs (s1 - s2) >? threshold_span)
                   && negb (threshold_span =? -1) = false).
  { case_tests; lia || reflexivity. }
  rewrite Hguard, (dict_getitem_Some _ _ _ Hsites). cbn [bind].
  rewrite Hf1, Hf2. cbn [bind].
  destruct frag1 as [i1 p1], frag2 as [i2 p2]. cbn [fst snd].
  case_tests; eexists; (split; [reflexivity|]);
    repeat split; intros; try discriminate; try tauto; try lia;
    intuition (congruence || lia).
Qed.

Lemma bedpe_type_mapped_same_chromosome_witness :
  exists type_,
    bedpe_type demo_sites (mkBedpeItems "chr1" 150 190 "chr1" 210 240 [])
               1000 10 = Ok (Some (type_, Some (1, "e"), Some (2, "s"))) /\
    (type_ = "self-ligation" <-> 1 = 2) /\
    (type_ = "re-ligation" <-> 2 - 1 = 1 /\ "s" = "s" /\ "e" = "e") /\
    (type_ = "normal" <-> 1 <> 2 /\ ~ (2 - 1 = 1 /\ "s" = "s" /\ "e" = "e")).
Proof.
  apply (bedpe_type_mapped_same_chromosome demo_sites
           (mkBedpeItems "chr1" 150 190 "chr1" 210 240 []) 1000 10
           [100; 200; 300] (1, "e") (2, "s")).
  - reflexivity.
  - left. simpl. lia.
  - vm_compute. reflexivity.
  - reflexivity.
  - reflexivity.
Defined.

(** C5: on a pair whose chromosomes differ, a threshold other than -1
    gives "normal" with no fragments whatever the sites table holds (no
    lookup, no search); with threshold -1 both ends are mapped with
    [find_frag], each on the sites of its own chromosome, and every return of
    [bedpe_type] is "normal" with these two fragments. *)
Theorem bedpe_type_cross_chromosome
    (rest_sites : gmap string (list Z)) (items : BedpeItems)
    (threshold_span rest_site_len : Z) :
  chr1 items <> chr2 items ->
  (threshold_span <> -1 ->
     bedpe_type rest_sites items threshold_span rest_site_len
       = Ok (Some ("normal", None, None))) /\
  (threshold_span = -1 ->
     forall sites1 sites2 frag1 frag2,
       rest_sites !! chr1 items = Some sites1 ->
       find_frag sites1 (start1 items) (end1 items) rest_site_len = Ok frag1 ->
       rest_sites !! chr2 items = Some sites2 ->
       find_frag sites2 (start2 items) (end2 items) rest_site_len = Ok frag2 ->
       bedpe_type rest_sites items threshold_span rest_site_len
         = Ok (Some ("normal", Some frag1, Some frag2))) /\
  (threshold_span = -1 ->
     forall r,
       bedpe_type rest_sites items threshold_span rest_site_len = Ok r ->
       exists sites1 sites2 frag1 frag2,
         rest_sites !! chr1 items = Some sites1 /\
         find_frag sites1 (start1 items) (end1 items) rest_site_len = Ok frag1 /\
         rest_sites !! chr2 items = Some sites2 /\
         find_frag sites2 (start2 items) (end2 items) rest_site_len = Ok frag2 /\
         r = Some ("normal", Some frag1, Some frag2)).
Proof.
  destruct items as [c1 s1 e1 c2 s2 e2 rest].
  cbn [chr1 chr2 start1 start2 end1 end2].
  intros Hchr. unfold bedpe_type.
  destruct (String.eqb_spec c1 c2) as [|_]; [contradiction|]. cbn [negb].
  split; [|split].
  - intros Hth. case_tests; [contradiction | reflexivity].
  - intros -> sites1 sites2 frag1 frag2 H1 Hf1 H2 Hf2. cbn [Z.eqb negb].
    rewrite (dict_getitem_Some _ _ _ H1). cbn [bind]. rewrite Hf1. cbn [bind].
    rewrite (dict_getitem_Some _ _ _ H2). cbn [bind]. rewrite Hf2. reflexivity.
  - intros -> r. cbn [Z.eqb negb].
    destruct (dict_getitem rest_sites c1) as [sites1|] eqn:H1; [|discriminate].
    cbn [bind].
    destruct (find_frag sites1 s1 e1 rest_site_len) as [frag1|] eqn:Hf1;
      [|discriminate].
    cbn [bind].
    destruct (dict_getitem rest_sites c2) as [sites2|] eqn:H2; [|discriminate].
    cbn [bind].
    destruct (find_frag sites2 s2 e2 rest_site_len) as [frag2|] eqn:Hf2;
      [|discriminate].
    cbn [bind]. intros [= <-].
    exists sites1, sites2, frag1, frag2.
    auto using dict_getitem_Ok.
Qed.

Lemma bedpe_type_cross_chromosome_witness :
  bedpe_type demo_sites (mkBedpeItems "chr1" 150 190 "chr2" 410 440 []) 1000 10
    = Ok (Some ("normal", None, None)) /\
  bedpe_type demo_sites (mkBedpeItems "chr1" 150 190 "chr2" 410 440 []) (-1) 10
    = Ok (Some ("normal", Some (1, "e"), Some (1, "s"))).
Proof.
  split.
  - apply (bedpe_type_cross_chromosome demo_sites
             (mkBedpeItems "chr1" 150 190 "chr2" 410 440 []) 1000 10);
      [simpl; discriminate | lia].
  - apply (bedpe_type_cross_chromosome demo_sites
             (mkBedpeItems "chr1" 150 190 "chr2" 410 440 []) (-1) 10)
      with (sites1 := [100; 200; 300]) (sites2 := [400; 500]);
      [simpl; discriminate | reflexivity | vm_compute; reflexivity
      | reflexivity | vm_compute; reflexivity | reflexivity].
Defined.

(** C6, as the code has it: on a same-chromosome pair with
    [|start1 - start2| > threshold_span] and [threshold_span != -1],
    [bedpe_type] returns "normal" with both fragments [None], whatever the
    sites table holds and whatever the intervals are: no lookup and no
    search takes place. *)
Theorem bedpe_type_safe_span
    (rest_sites : gmap string (list Z)) (items : BedpeItems)
    (threshold_span rest_site_len : Z) :
  chr1 items = chr2 items ->
  Z.abs (start1 items - start2 items) > threshold_span ->
  threshold_span <> -1 ->
  bedpe_type rest_sites items threshold_span rest_site_len
    = Ok (Some ("normal", None, None)).
Proof.
  destruct items as [c1 s1 e1 c2 s2 e2 rest].
  cbn [chr1 chr2 start1 start2 end1 end2].
  intros <- Hspan Hth. unfold bedpe_type.
  rewrite String.eqb_refl. cbn [negb].
  case_tests; lia || reflexivity.
Qed.

Lemma bedpe_type_safe_span_witness :
  bedpe_type ∅ (mkBedpeItems "chr1" 150 160 "chr1" 5000 5010 []) 1000 10
    = Ok (Some ("normal", None, None)).
Proof.
  apply (bedpe_type_safe_span ∅
           (mkBedpeItems "chr1" 150 160 "chr1" 5000 5010 []) 1000 10).
  - reflexivity.
  - simpl. lia.
  - lia.
Defined.

(** C6, refuted as stated: with the threshold -1 every span is larger than
    the threshold, and yet both ends are mapped; this pair is even classified
    "re-ligation". *)
Lemma bedpe_type_safe_span_counterexample :
  Z.abs (150 - 210) > -1 /\
  bedpe_type demo_sites (mkBedpeItems "chr1" 150 190 "chr1" 210 240 []) (-1) 10
    = Ok (Some ("re-ligation", Some (1, "e"), Some (2, "s"))).
Proof. split; [simpl; lia | vm_compute; reflexivity]. Qed.

(** C9, as the code has it: when [bedpe_type] returns on a pair, it returns
    on the pair with its two ends exchanged as well, with the two fragment
    values exchanged; "self-ligation" is detected on one exactly when it is on
    the other. "re-ligation" is directional (end 2 on the fragment right
    after the one of end 1): a "re-ligation" pair becomes "normal" once its
    ends are exchanged, and a "normal" pair stays "normal" or becomes
    "re-ligation". *)
Theorem bedpe_type_swap_ends
    (rest_sites : gmap string (list Z)) (items : BedpeItems)
    (threshold_span rest_site_len : Z)
    (type_ : string) (frag1 frag2 : option frag) :
  bedpe_type rest_sites items threshold_span rest_site_len
    = Ok (Some (type_, frag1, frag2)) ->
  exists type',
    bedpe_type rest_sites (swap_ends items) threshold_span rest_site_len
      = Ok (Some (type', frag2, frag1)) /\
    (type_ = "self-ligation" <-> type' = "self-ligation") /\
    (type_ = "re-ligation" -> type' = "normal") /\
    (type_ = "normal" -> type' = "normal" \/ type' = "re-ligation").
Proof.
  destruct items as [c1 s1 e1 c2 s2 e2 rest].
  unfold swap_ends. cbn [chr1 chr2 start1 start2 end1 end2 passthrough].
  unfold bedpe_type.
  rewrite (String.eqb_sym c2 c1).
  replace (Z.abs (s2 - s1)) with (Z.abs (s1 - s2)) by lia.
  destruct (String.eqb_spec c1 c2) as [<-|Hne]; cbn [negb].
  - destruct ((Z.abs (s1 - s2) >? threshold_span) && negb (threshold_span =? -1)).
    + destruct (negb (threshold_span =? -1)); intros [= <- <- <-].
      exists "normal". repeat split; intros; try discriminate; auto.
    + destruct (dict_getitem rest_sites c1) as [sites|]; [|discriminate].
      cbn [bind].
      destruct (find_frag sites s1 e1 rest_site_len) as [[i1 p1]|]; [|discriminate].
      destruct (find_frag sites s2 e2 rest_site_len) as [[i2 p2]|]; [|discriminate].
      cbn [bind fst snd].
      case_tests; intros [= <- <- <-]; try lia;
        eexists; (split; [reflexivity|]);
        repeat split; intros; try discriminate; try congruence; auto.
  - destruct (negb (threshold_span =? -1)).
    + intros [= <- <- <-].
      exists "normal". repeat split; intros; try discriminate; auto.
    + destruct (dict_getitem rest_sites c1) as [sites1|]; [|discriminate].
      cbn [bind].
      destruct (find_frag sites1 s1 e1 rest_site_len) as [f1|]; [|discriminate].
      cbn [bind].
      destruct (dict_getitem rest_sites c2) as [sites2|]; [|discriminate].
      cbn [bind].
      destruct (find_frag sites2 s2 e2 rest_site_len) as [f2|]; [|discriminate].
      cbn [bind]. intros [= <- <- <-].
      exists "normal". repeat split; intros; try discriminate; auto.
Qed.

Lemma bedpe_type_swap_ends_witness :
  exists type',
    bedpe_type demo_sites
      (swap_ends (mkBedpeItems "chr1" 150 190 "chr1" 210 240 [])) 1000 10
      = Ok (Some (type', Some (2, "s"), Some (1, "e"))) /\
    ("re-ligation" = "self-ligation" <-> type' = "self-ligation") /\
    ("re-ligation" = "re-ligation" -> type' = "normal") /\
    ("re-ligation" = "normal" -> type' = "normal" \/ type' = "re-ligation").
Proof.
  apply (bedpe_type_swap_ends demo_sites
           (mkBedpeItems "chr1" 150 190 "chr1" 210 240 []) 1000 10
           "re-ligation" (Some (1, "e")) (Some (2, "s"))).
  vm_compute. reflexivity.
Defined.

(** C9, refuted as stated: this pair is classified "re-ligation", and the
    same pair with its ends exchanged is classified "normal". A pair whose
    ends lie on the same two fragments in exchanged order with the side tags
    flipped as well (end 1 on fragment 2 near its end, end 2 on fragment 1
    near its start) is "normal" too. *)
Lemma bedpe_type_swap_ends_counterexample :
  bedpe_type demo_sites (mkBedpeItems "chr1" 150 190 "chr1" 210 240 []) 1000 10
    = Ok (Some ("re-ligation", Some (1, "e"), Some (2, "s"))) /\
  swap_ends (mkBedpeItems "chr1" 150 190 "chr1" 210 240 [])
    = mkBedpeItems "chr1" 210 240 "chr1" 150 190 [] /\
  bedpe_type demo_sites (mkBedpeItems "chr1" 210 240 "chr1" 150 190 []) 1000 10
    = Ok (Some ("normal", Some (2, "s"), Some (1, "e"))) /\
  bedpe_type demo_sites (mkBedpeItems "chr1" 260 290 "chr1" 110 140 []) 1000 10
    = Ok (Some ("normal", Some (2, "e"), Some (1, "s"))) /\
  "re-ligation" <> "normal".
Proof. repeat split; try (vm_compute; reflexivity). discriminate. Qed.

(** C10: whenever [bedpe_type] returns, it returns a triple (control never
    falls off its end) whose two fragment values are both [None] or both
    present; the worker, which formats both fragments as soon as the first
    one is present, then completes its round on the record. *)
Theorem bedpe_type_frags_both_or_neither
    (rest_sites : gmap string (list Z)) (items : BedpeItems)
    (threshold_span rest_site_len : Z) (r : bedpe_result) :
  bedpe_type rest_sites items threshold_span rest_site_len = Ok r ->
  (exists type_ frag1 frag2,
     r = Some (type_, frag1, frag2) /\ (frag1 = None <-> frag2 = None)) /\
  (forall st, exists st',
     worker_record rest_sites rest_site_len threshold_span st items = Ok st').
Proof.
  intros Hr.
  assert (Hshape : exists type_ frag1 frag2,
            r = Some (type_, frag1, frag2) /\ (frag1 = None <-> frag2 = None)).
  { revert Hr. destruct items as [c1 s1 e1 c2 s2 e2 rest]. unfold bedpe_type.
    destruct (negb (String.eqb c1 c2)).
    - destruct (negb (threshold_span =? -1)) eqn:Hth.
      + intros [= <-]. exists "normal", None, None. tauto.
      + destruct (dict_getitem rest_sites c1) as [sites1|]; [|discriminate].
        cbn [bind].
        destruct (find_frag sites1 s1 e1 rest_site_len) as [f1|]; [|discriminate].
        cbn [bind].
        destruct (dict_getitem rest_sites c2) as [sites2|]; [|discriminate].
        cbn [bind].
        destruct (find_frag sites2 s2 e2 rest_site_len) as [f2|]; [|discriminate].
        cbn [bind]. intros [= <-].
        exists "normal", (Some f1), (Some f2). split; [reflexivity|].
        split; discriminate.
    - destruct (negb (threshold_span =? -1)) eqn:Hth.
      + destruct (Z.abs (s1 - s2) >? threshold_span); cbn [andb].
        * intros [= <-]. exists "normal", None, None. tauto.
        * destruct (dict_getitem rest_sites c1) as [sites|]; [|discriminate].
          cbn [bind].
          destruct (find_frag sites s1 e1 rest_site_len) as [f1|]; [|discriminate].
          destruct (find_frag sites s2 e2 rest_site_len) as [f2|]; [|discriminate].
          cbn [bind].
          repeat match goal with
                 | |- context [if ?b then _ else _] => destruct b
                 end;
            intros [= <-]; do 3 eexists; (split; [reflexivity|]);
            split; discriminate.
      + rewrite andb_false_r.
        destruct (dict_getitem rest_sites c1) as [sites|]; [|discriminate].
        cbn [bind].
        destruct (find_frag sites s1 e1 rest_site_len) as [f1|]; [|discriminate].
        destruct (find_frag sites s2 e2 rest_site_len) as [f2|]; [|discriminate].
        cbn [bind].
        repeat match goal with
               | |- context [if ?b then _ else _] => destruct b
               end;
          intros [= <-]; do 3 eexists; (split; [reflexivity|]);
          split; discriminate. }
  split; [exact Hshape|].
  intros st. unfold worker_record. rewrite Hr.
  destruct Hshape as (type_ & frag1 & frag2 & -> & Hboth).
  destruct frag1 as [f1|], frag2 as [f2|];
    try (exfalso; destruct Hboth as [H1 H2];
         (specialize (H1 eq_refl) || specialize (H2 eq_refl)); discriminate);
    cbn [bind]; destruct (l_counts st) as [[n s] r];
    repeat match goal with
           | |- context [if ?b then _ else _] => destruct b
           end; eexists; reflexivity.
Qed.

Lemma bedpe_type_frags_both_or_neither_witness :
  (exists type_ frag1 frag2,
     Some ("re-ligation", Some (1, "e"), Some (2, "s"))
       = Some (type_, frag1, frag2) /\ (frag1 = None <-> frag2 = None)) /\
  (forall st, exists st',
     worker_record demo_sites 10 1000 st
       (mkBedpeItems "chr1" 150 190 "chr1" 210 240 []) = Ok st').
Proof.
  apply (bedpe_type_frags_both_or_neither demo_sites
           (mkBedpeItems "chr1" 150 190 "chr1" 210 240 []) 1000 10).
  vm_compute. reflexivity.
Defined.

(** ** worker *)

(** [find_frag] raises [AssertionError] or [IndexError] only. *)
Lemma find_frag_no_KeyError (sites : list Z) (start end_ rest_site_len : Z) (k : string) :
  find_frag sites start end_ rest_site_len <> Raise (KeyError k).
Proof.
  unfold find_frag, ndarray_getitem. cbv zeta.
  repeat match goal with
         | |- context [if ?b then _ else _] => destruct b; cbn [bind]
         end; discriminate.
Qed.

(** A [KeyError] of [bedpe_type] comes from a lookup of one of the two
    chromosomes of the record, absent from the sites table. *)
Lemma bedpe_type_KeyError (rest_sites : gmap string (list Z)) (items : BedpeItems)
    (threshold_span rest_site_len : Z) (k : string) :
  bedpe_type rest_sites items threshold_span rest_site_len = Raise (KeyError k) ->
  (k = chr1 items \/ k = chr2 items) /\ rest_sites !! k = None.
Proof.
  destruct items as [c1 s1 e1 c2 s2 e2 rest].
  cbn [chr1 chr2]. unfold bedpe_type, dict_getitem.
  repeat match goal with
         | |- context [if ?b then _ else _] => destruct b; try discriminate
         end.
  - destruct (rest_sites !! c1) eqn:H1; cbn [bind]; [|intros [= <-]; auto].
    destruct (find_frag _ s1 e1 _) eqn:Hf1; cbn [bind];
      [|intros [= ->]; exfalso; eapply find_frag_no_KeyError; eassumption].
    destruct (rest_sites !! c2) eqn:H2; cbn [bind]; [|intros [= <-]; auto].
    destruct (find_frag _ s2 e2 _) eqn:Hf2; cbn [bind]; [discriminate|].
    intros [= ->]. exfalso. eapply find_frag_no_KeyError; eassumption.
  - destruct (rest_sites !! c1) eqn:H1; cbn [bind]; [|intros [= <-]; auto].
    destruct (find_frag _ s1 e1 _) eqn:Hf1; cbn [bind];
      [|intros [= ->]; exfalso; eapply find_frag_no_KeyError; eassumption].
    destruct (find_frag _ s2 e2 _) eqn:Hf2; cbn [bind];
      [|intros [= ->]; exfalso; eapply find_frag_no_KeyError; eassumption].
    repeat match goal with
           | |- context [if ?b then _ else _] => destruct b
           end; discriminate.
Qed.

(** The worker catches the [KeyError] and goes on to the next record. *)
Lemma worker_record_KeyError (rest_sites : gmap string (list Z))
    (rest_site_len threshold_span : Z) (st : worker_state) (items : BedpeItems)
    (k : string) :
  bedpe_type rest_sites items threshold_span rest_site_len = Raise (KeyError k) ->
  worker_record rest_sites rest_site_len threshold_span st items
    = Ok (skipped st k).
Proof. intros H. unfold worker_record. rewrite H. reflexivity. Qed.

(** C7, as the code has it: when fragment mapping is attempted on a record
    (a cross-chromosome pair under threshold -1, or a same-chromosome pair
    whose span does not take the short-circuit) and the lookup meets a
    chromosome absent from the sites table (chromosome 1, or chromosome 2
    once end 1 has been mapped), the worker skips the record: its three
    files and its counts are unchanged and the [KeyError] is logged. *)
Theorem worker_record_skips_unknown_chromosome
    (rest_sites : gmap string (list Z)) (rest_site_len threshold_span : Z)
    (st : worker_state) (items : BedpeItems) :
  (chr1 items <> chr2 items /\ threshold_span = -1) \/
  (chr1 items = chr2 items /\
   (Z.abs (start1 items - start2 items) <= threshold_span \/ threshold_span = -1)) ->
  rest_sites !! chr1 items = None \/
  (exists sites1 frag1,
     rest_sites !! chr1 items = Some sites1 /\
     find_frag sites1 (start1 items) (end1 items) rest_site_len = Ok frag1 /\
     rest_sites !! chr2 items = None) ->
  exists k st',
    (k = chr1 items \/ k = chr2 items) /\ rest_sites !! k = None /\
    worker_record rest_sites rest_site_len threshold_span st items = Ok st' /\
    output_f st' = output_f st /\
    err_sel_f st' = err_sel_f st /\
    err_re_f st' = err_re_f st /\
    l_counts st' = l_counts st /\
    warnings st' = (warnings st ++ [KeyError k])%list.
Proof.
  intros Hattempt Habsent.
  assert (Hraise : exists k,
            bedpe_type rest_sites items threshold_span rest_site_len
              = Raise (KeyError k)).
  { destruct items as [c1 s1 e1 c2 s2 e2 rest].
    cbn [chr1 chr2 start1 start2 end1 end2] in *.
    unfold bedpe_type.
    destruct Hattempt as [[Hne ->]|[<- Hspan]].
    - destruct (String.eqb_spec c1 c2) as [|_]; [contradiction|].
      cbn [negb Z.eqb].
      destruct Habsent as [H1|(sites1 & frag1 & H1 & Hf1 & H2)].
      + exists c1. rewrite (dict_getitem_None _ _ H1). reflexivity.
      + exists c2. rewrite (dict_getitem_Some _ _ _ H1). cbn [bind].
        rewrite Hf1. cbn [bind].
        rewrite (dict_getitem_None _ _ H2). reflexivity.
    - rewrite String.eqb_refl. cbn [negb].
      assert (Hguard : (Z.abs (s1 - s2) >? threshold_span)
                       && negb (threshold_span =? -1) = false).
      { case_tests; lia || reflexivity. }
      rewrite Hguard.
      destruct Habsent as [H1|(sites1 & frag1 & H1 & _ & H2)]; [|congruence].
      exists c1. rewrite (dict_getitem_None _ _ H1). reflexivity. }
  destruct Hraise as [k Hk].
  exists k, (skipped st k).
  destruct (bedpe_type_KeyError _ _ _ _ _ Hk) as [Hwhich Hnone].
  rewrite (worker_record_KeyError _ _ _ st _ _ Hk).
  unfold skipped. cbn. tauto.
Qed.

Lemma worker_record_skips_unknown_chromosome_witness :
  exists k st',
    (k = "chrX" \/ k = "chr1") /\ demo_sites !! k = None /\
    worker_record demo_sites 10 (-1) init_state
      (mkBedpeItems "chrX" 150 190 "chr1" 210 240 []) = Ok st' /\
    output_f st' = [] /\
    err_sel_f st' = [] /\
    err_re_f st' = [] /\
    l_counts st' = (0, 0, 0) /\
    warnings st' = [KeyError k].
Proof.
  apply (worker_record_skips_unknown_chromosome demo_sites 10 (-1) init_state
           (mkBedpeItems "chrX" 150 190 "chr1" 210 240 [])).
  - left. split; [simpl; discriminate | reflexivity].
  - left. vm_compute. reflexivity.
Defined.

(** C7, refuted as stated: chromosome "chrX" is absent from the sites table,
    yet under threshold 1000 this cross-chromosome record takes the fast
    path: it is written to the normal output, counted as normal, and nothing
    is logged. *)
Lemma worker_record_unknown_chromosome_counterexample :
  demo_sites !! "chrX" = None /\
  worker_record demo_sites 10 1000 init_state
    (mkBedpeItems "chrX" 150 190 "chr1" 210 240 [])
  = Ok (mkWorkerState
          [String.concat tab ["chrX"; "150"; "190"; "chr1"; "210"; "240"]
             +:+ newline]
          [] [] (1, 0, 0) []).
Proof. split; vm_compute; reflexivity. Qed.

(** On a chunk, a skipped record leaves the rest of the loop to go on from
    the same files and counts. *)
Lemma worker_chunk_skips (rest_sites : gmap string (list Z))
    (rest_site_len threshold_span : Z) (st : worker_state) (items : BedpeItems)
    (chunk : list BedpeItems) (k : string) :
  bedpe_type rest_sites items threshold_span rest_site_len = Raise (KeyError k) ->
  worker_chunk rest_sites rest_site_len threshold_span st (items :: chunk)
    = worker_chunk rest_sites rest_site_len threshold_span (skipped st k) chunk.
Proof.
  intros H. cbn [worker_chunk].
  rewrite (worker_record_KeyError _ _ _ st _ _ H). reflexivity.
Qed.

(** * Further properties of the code *)

Local Open Scope list_scope.

(** ** searchsorted on ascending arrays *)

Lemma ndarray_getitem_Ok_nonneg (arr : list Z) (i x : Z) :
  0 <= i -> ndarray_getitem arr i = Ok x -> i < Z.of_nat (length arr).
Proof.
  intros Hi. unfold ndarray_getitem. cbv zeta.
  destruct (Z.leb_spec 0 i); [|lia].
  destruct (Z.ltb_spec i (Z.of_nat (length arr))); [lia|]. cbn [andb].
  destruct (Z.ltb_spec i 0); [lia|]. rewrite andb_false_r. discriminate.
Qed.

Lemma searchsorted_right_bounds (arr : list Z) (v : Z) :
  0 <= searchsorted_right arr v <= Z.of_nat (length arr).
Proof.
  unfold searchsorted_right.
  pose proof (binsearch_right_bounds arr v (length arr) 0 (length arr) ltac:(lia)).
  lia.
Qed.

(** Counting the elements [<= v] of a list split at [r] into a part [<= v]
    and a part [> v]. *)
Lemma count_le_split (v : Z) (l : list Z) :
  forall r : nat,
    (r <= length l)%nat ->
    (forall i, (i < r)%nat -> nth i l 0 <= v) ->
    (forall i, (r <= i)%nat -> (i < length l)%nat -> v < nth i l 0) ->
    length (List.filter (fun x => x <=? v) l) = r.
Proof.
  induction l as [|x l IH]; intros r Hr Hleft Hright.
  - simpl in *. lia.
  - cbn [List.filter]. destruct r as [|r].
    + pose proof (Hright 0%nat ltac:(lia) ltac:(simpl; lia)) as H0.
      cbn [nth] in H0. destruct (Z.leb_spec x v); [lia|].
      apply IH; [lia | intros; lia |].
      intros i _ Hi. apply (Hright (S i)); simpl; lia.
    + pose proof (Hleft 0%nat ltac:(lia)) as H0. cbn [nth] in H0.
      destruct (Z.leb_spec x v); [|lia]. cbn [length]. f_equal.
      apply IH; [simpl in Hr; lia | |].
      * intros i Hi. apply (Hleft (S i)). lia.
      * intros i Hi Hi'. apply (Hright (S i)); simpl; lia.
Qed.

(** X1: on an ascending array [searchsorted(v, side='right')] is the number
    of elements [<= v]: the binary search agrees with a linear count. *)
Theorem searchsorted_right_counts (arr : list Z) (v : Z) :
  ascending arr = true ->
  searchsorted_right arr v
    = Z.of_nat (length (List.filter (fun x => x <=? v) arr)).
Proof.
  intros Hasc.
  destruct (searchsorted_right_spec arr v Hasc) as (Hr & Hleft & Hright).
  rewrite (count_le_split v arr (Z.to_nat (searchsorted_right arr v)));
    [lia | lia | assumption | assumption].
Qed.

Lemma searchsorted_right_counts_witness :
  searchsorted_right [100; 200; 300] 200
    = Z.of_nat (length (List.filter (fun x => x <=? 200) [100; 200; 300])).
Proof.
  apply (searchsorted_right_counts [100; 200; 300] 200). reflexivity.
Defined.

Lemma searchsorted_right_le (arr : list Z) (v w : Z) :
  ascending arr = true -> v <= w ->
  searchsorted_right arr v <= searchsorted_right arr w.
Proof.
  intros Hasc Hvw.
  destruct (searchsorted_right_spec arr v Hasc) as (Hrv & Hleft & _).
  destruct (searchsorted_right_spec arr w Hasc) as (Hrw & _ & Hright).
  destruct (Z_le_gt_dec (searchsorted_right arr v) (searchsorted_right arr w))
    as [|Hgt]; [assumption|].
  specialize (Hleft (Z.to_nat (searchsorted_right arr w)) ltac:(lia)).
  specialize (Hright (Z.to_nat (searchsorted_right arr w)) ltac:(lia) ltac:(lia)).
  lia.
Qed.

(** X2: on an ascending array the insertion point does not decrease when
    the key grows; so in [find_frag] the index of [start] is never beyond the
    index of the end search point. *)
Theorem searchsorted_right_monotone (arr : list Z) (v w : Z) :
  ascending arr = true -> v <= w ->
  searchsorted_right arr v <= searchsorted_right arr w.
Proof. exact (searchsorted_right_le arr v w). Qed.

Lemma searchsorted_right_monotone_witness :
  searchsorted_right [100; 200; 300] 150 <= searchsorted_right [100; 200; 300] 250.
Proof.
  apply (searchsorted_right_monotone [100; 200; 300] 150 250);
    [reflexivity | lia].
Defined.

(** ** find_frag: what a returned fragment looks like *)

(** [arr[i - 1]] is readable for every valid index [i]: at [i = 0] it is the
    last element. *)
Lemma ndarray_getitem_pred (arr : list Z) (i : Z) :
  0 <= i < Z.of_nat (length arr) ->
  exists x, ndarray_getitem arr (i - 1) = Ok x.
Proof.
  intros Hi. destruct (Z.eq_dec i 0) as [->|Hnz].
  - rewrite ndarray_getitem_negative by lia. eauto.
  - rewrite ndarray_getitem_in_range by lia. eauto.
Qed.

Ltac case_ifs_in H :=
  repeat match type of H with
         | context [if ?b then _ else _] => destruct b
         end.

(** X3: whenever [find_frag] returns, on any array, the interval passed the
    assertion, the fragment index is a valid index of the sites array
    ([0 <= idx < len(sites)]: index [len(sites)], the fragment right of the
    last site, is never reported) and the side is ['s'] or ['e']. *)
Theorem find_frag_returns_valid_index
    (sites : list Z) (start end_ rest_site_len idx : Z) (pos : string) :
  find_frag sites start end_ rest_site_len = Ok (idx, pos) ->
  start < end_ - rest_site_len - 1 /\
  0 <= idx < Z.of_nat (length sites) /\
  (pos = "s" \/ pos = "e").
Proof.
  unfold find_frag. cbv zeta.
  destruct (Z.ltb_spec start (end_ - rest_site_len - 1)) as [Hpre|];
    cbn [negb]; [|discriminate].
  pose proof (searchsorted_right_bounds sites start) as Hs.
  pose proof (searchsorted_right_bounds sites (end_ - rest_site_len - 1)) as He.
  set (i_s := searchsorted_right sites start) in *.
  set (i_e := searchsorted_right sites (end_ - rest_site_len - 1)) in *.
  clearbody i_s i_e.
  destruct (i_s =? i_e).
  - destruct (ndarray_getitem sites (i_s - 1)); cbn [bind]; [|discriminate].
    destruct (ndarray_getitem sites i_s) eqn:E; cbn [bind]; [|discriminate].
    apply ndarray_getitem_Ok_nonneg in E; [|lia].
    intros H. case_ifs_in H; injection H as <- <-; auto with zarith.
  - destruct (ndarray_getitem sites (i_s - 1)); cbn [bind]; [|discriminate].
    destruct (ndarray_getitem sites i_s) eqn:Es; cbn [bind]; [|discriminate].
    destruct (ndarray_getitem sites i_e) eqn:Ee; cbn [bind]; [|discriminate].
    apply ndarray_getitem_Ok_nonneg in Es; [|lia].
    apply ndarray_getitem_Ok_nonneg in Ee; [|lia].
    intros H. case_ifs_in H; injection H as <- <-; auto with zarith.
Qed.

Lemma find_frag_returns_valid_index_witness :
  150 < 190 - 10 - 1 /\
  0 <= 1 < Z.of_nat (length [100; 200; 300]) /\
  ("e" = "s" \/ "e" = "e").
Proof.
  apply (find_frag_returns_valid_index [100; 200; 300] 150 190 10 1 "e").
  reflexivity.
Defined.

(** X4: the straddling branch on an ascending array of positions of the
    data model (non-negative, fitting the int64 array), for a non-negative
    [start]. For an interval that passes the assertion and whose two
    insertion points [idx_s] (of [start]) and [idx_e] (of the end search
    point) differ:
    - [idx_e == len(sites)] (the interval reaches beyond the last site):
      [frag_end = sites[idx_e]] raises [IndexError];
    - otherwise, [idx_s == 0] gives fragment 0 with side ['e'];
    - otherwise the result is [(idx_s, 's')] when
      [start - sites[idx_s-1] < sites[idx_e] - end_search_point - 1], and
      [(idx_e, 'e')] when not. *)
Theorem find_frag_straddling
    (sites : list Z) (start end_ rest_site_len : Z) :
  ascending sites = true ->
  all_positions sites = true ->
  0 <= start ->
  start < end_ - rest_site_len - 1 ->
  let end_search_point := end_ - rest_site_len - 1 in
  let idx_s := searchsorted_right sites start in
  let idx_e := searchsorted_right sites end_search_point in
  idx_s <> idx_e ->
  (idx_e = Z.of_nat (length sites) ->
     find_frag sites start end_ rest_site_len = Raise IndexError) /\
  (idx_e < Z.of_nat (length sites) -> idx_s = 0 ->
     find_frag sites start end_ rest_site_len = Ok (0, "e")) /\
  (idx_e < Z.of_nat (length sites) -> 0 < idx_s ->
     find_frag sites start end_ rest_site_len
       = if start - nth (Z.to_nat (idx_s - 1)) sites 0
            <? nth (Z.to_nat idx_e) sites 0 - end_search_point - 1
         then Ok (idx_s, "s") else Ok (idx_e, "e")).
Proof.
  intros Hasc Hsites Hstart Hpre end_search_point idx_s idx_e Hne.
  pose proof (searchsorted_right_bounds sites start) as Hs.
  pose proof (searchsorted_right_bounds sites end_search_point) as He.
  pose proof (searchsorted_right_le sites start end_search_point Hasc
                ltac:(lia)) as Hle.
  destruct (searchsorted_right_spec sites end_search_point Hasc)
    as (_ & _ & HeR).
  fold idx_s in Hs, Hle. fold idx_e in He, Hle, HeR.
  assert (Hlt : idx_s < idx_e) by lia.
  unfold find_frag. cbv zeta.
  destruct (Z.ltb_spec start (end_ - rest_site_len - 1)); [|lia]. cbn [negb].
  fold end_search_point. fold idx_s idx_e.
  destruct (Z.eqb_spec idx_s idx_e); [contradiction|].
  clearbody idx_s idx_e.
  split; [|split].
  - intros ->.
    rewrite (ndarray_getitem_in_range sites idx_s) by lia.
    rewrite ndarray_getitem_len.
    destruct (ndarray_getitem_pred sites idx_s ltac:(lia)) as [x ->].
    reflexivity.
  - intros He' ->.
    rewrite (ndarray_getitem_negative sites (0 - 1)) by lia.
    rewrite !ndarray_getitem_in_range by lia. reflexivity.
  - intros He' Hs'.
    rewrite !ndarray_getitem_in_range by lia. cbn [bind].
    destruct (Z.eqb_spec idx_s 0); [lia|].
    destruct (Z.eqb_spec idx_e (Z.of_nat (length sites))); [lia|].
    pose proof (all_positions_nth sites (Z.to_nat (idx_s - 1)) Hsites
                  ltac:(lia)) as Hleft.
    pose proof (all_positions_nth sites (Z.to_nat idx_e) Hsites ltac:(lia))
      as Hright.
    specialize (HeR (Z.to_nat idx_e) ltac:(lia) ltac:(lia)).
    unfold end_search_point in *.
    rewrite !wrap64_id by (rewrite ?wrap64_id by lia; lia).
    reflexivity.
Qed.

Lemma find_frag_straddling_witness :
  (searchsorted_right [100; 200; 300] (230 - 10 - 1) = Z.of_nat (length [100; 200; 300]) ->
     find_frag [100; 200; 300] 180 230 10 = Raise IndexError) /\
  (searchsorted_right [100; 200; 300] (230 - 10 - 1) < Z.of_nat (length [100; 200; 300]) ->
   searchsorted_right [100; 200; 300] 180 = 0 ->
     find_frag [100; 200; 300] 180 230 10 = Ok (0, "e")) /\
  (searchsorted_right [100; 200; 300] (230 - 10 - 1) < Z.of_nat (length [100; 200; 300]) ->
   0 < searchsorted_right [100; 200; 300] 180 ->
     find_frag [100; 200; 300] 180 230 10
       = if 180 - nth (Z.to_nat (searchsorted_right [100; 200; 300] 180 - 1))
                      [100; 200; 300] 0
            <? nth (Z.to_nat (searchsorted_right [100; 200; 300] (230 - 10 - 1)))
                   [100; 200; 300] 0 - (230 - 10 - 1) - 1
         then Ok (searchsorted_right [100; 200; 300] 180, "s")
         else Ok (searchsorted_right [100; 200; 300] (230 - 10 - 1), "e")).
Proof.
  apply (find_frag_straddling [100; 200; 300] 180 230 10).
  - reflexivity.
  - reflexivity.
  - lia.
  - lia.
  - vm_compute. discriminate.
Defined.

(** The same wrap-around in the straddling branch, outside the data model. *)
Example find_frag_straddling_wraps :
  find_frag [-9223372036854775798; 4611686018427388004; 4611686018427388104]
            4611686018427387904 4611686018427388020 10 = Ok (1, "s").
Proof. vm_compute. reflexivity. Qed.

(** Runs of the straddling branch: an interval across site 200 that lies
    mostly right of it, an interval across the first site, and an interval
    across the last site. *)
Example find_frag_straddling_runs :
  find_frag [100; 200; 300] 180 230 10 = Ok (2, "e") /\
  find_frag [100; 200; 300] 150 215 10 = Ok (1, "s") /\
  find_frag [100; 200; 300] 90 150 10 = Ok (0, "e") /\
  find_frag [100; 200; 300] 280 340 10 = Raise IndexError.
Proof. repeat split. Qed.

(** X5: on an ascending array a returned fragment really meets the interval
    that was searched: its right bounding site [sites[idx]] lies beyond
    [start], and its left bounding site [sites[idx-1]] (when [idx > 0]) is
    not beyond the end search point [end - rest_site_len - 1]. *)
Theorem find_frag_fragment_meets_interval
    (sites : list Z) (start end_ rest_site_len idx : Z) (pos : string) :
  ascending sites = true ->
  find_frag sites start end_ rest_site_len = Ok (idx, pos) ->
  start < nth (Z.to_nat idx) sites 0 /\
  (0 < idx -> nth (Z.to_nat (idx - 1)) sites 0 <= end_ - rest_site_len - 1).
Proof.
  intros Hasc.
  destruct (searchsorted_right_spec sites start Hasc) as (Hs & HsL & HsR).
  destruct (searchsorted_right_spec sites (end_ - rest_site_len - 1) Hasc)
    as (He & HeL & HeR).
  unfold find_frag. cbv zeta.
  destruct (Z.ltb_spec start (end_ - rest_site_len - 1)) as [Hpre|];
    cbn [negb]; [|discriminate].
  set (i_s := searchsorted_right sites start) in *.
  set (i_e := searchsorted_right sites (end_ - rest_site_len - 1)) in *.
  clearbody i_s i_e.
  assert (Hstart : i_s < Z.of_nat (length sites) ->
            start < nth (Z.to_nat i_s) sites 0 /\
            (0 < i_s -> nth (Z.to_nat (i_s - 1)) sites 0
                        <= end_ - rest_site_len - 1)).
  { intros Hlt. split.
    - apply HsR; lia.
    - intros Hpos. specialize (HsL (Z.to_nat (i_s - 1)) ltac:(lia)). lia. }
  assert (Hend : i_e < Z.of_nat (length sites) ->
            start < nth (Z.to_nat i_e) sites 0 /\
            (0 < i_e -> nth (Z.to_nat (i_e - 1)) sites 0
                        <= end_ - rest_site_len - 1)).
  { intros Hlt. split.
    - specialize (HeR (Z.to_nat i_e) ltac:(lia) ltac:(lia)). lia.
    - intros Hpos. apply HeL. lia. }
  destruct (i_s =? i_e).
  - destruct (ndarray_getitem sites (i_s - 1)); cbn [bind]; [|discriminate].
    destruct (ndarray_getitem sites i_s) eqn:E; cbn [bind]; [|discriminate].
    apply ndarray_getitem_Ok_nonneg in E; [|lia].
    intros H. case_ifs_in H; injection H as <- <-; auto.
  - destruct (ndarray_getitem sites (i_s - 1)); cbn [bind]; [|discriminate].
    destruct (ndarray_getitem sites i_s) eqn:Es; cbn [bind]; [|discriminate].
    destruct (ndarray_getitem sites i_e) eqn:Ee; cbn [bind]; [|discriminate].
    apply ndarray_getitem_Ok_nonneg in Es; [|lia].
    apply ndarray_getitem_Ok_nonneg in Ee; [|lia].
    intros H. case_ifs_in H; injection H as <- <-; auto.
Qed.

Lemma find_frag_fragment_meets_interval_witness :
  180 < nth (Z.to_nat 2) [100; 200; 300] 0 /\
  (0 < 2 -> nth (Z.to_nat (2 - 1)) [100; 200; 300] 0 <= 230 - 10 - 1).
Proof.
  apply (find_frag_fragment_meets_interval [100; 200; 300] 180 230 10 2 "e");
    reflexivity.
Defined.

(** ** bedpe_type: its results and its exceptions *)

(** X6: every triple [bedpe_type] returns carries one of the three type
    strings, and an artifact type only on a same-chromosome pair with both
    fragments present: "self-ligation" with equal fragment indices,
    "re-ligation" with end 2 on the next fragment at its ['s'] side and end 1
    at its ['e'] side. A cross-chromosome pair or a pair returned without
    fragments is never an artifact. *)
Theorem bedpe_type_artifact_only_when_mapped
    (rest_sites : gmap string (list Z)) (items : BedpeItems)
    (threshold_span rest_site_len : Z)
    (type_ : string) (frag1 frag2 : option frag) :
  bedpe_type rest_sites items threshold_span rest_site_len
    = Ok (Some (type_, frag1, frag2)) ->
  type_ = "normal" \/
  (chr1 items = chr2 items /\
   exists f1 f2,
     frag1 = Some f1 /\ frag2 = Some f2 /\
     ((type_ = "self-ligation" /\ fst f1 = fst f2) \/
      (type_ = "re-ligation" /\ fst f2 = fst f1 + 1 /\
       snd f2 = "s" /\ snd f1 = "e"))).
Proof.
  destruct items as [c1 s1 e1 c2 s2 e2 rest]. cbn [chr1 chr2].
  unfold bedpe_type.
  destruct (String.eqb_spec c1 c2) as [<-|Hne]; cbn [negb].
  - destruct ((Z.abs (s1 - s2) >? threshold_span) && negb (threshold_span =? -1)).
    + destruct (negb (threshold_span =? -1)); intros [= <- <- <-]. auto.
    + destruct (dict_getitem rest_sites c1) as [sites|]; [|discriminate].
      cbn [bind].
      destruct (find_frag sites s1 e1 rest_site_len) as [[i1 p1]|]; [|discriminate].
      destruct (find_frag sites s2 e2 rest_site_len) as [[i2 p2]|]; [|discriminate].
      cbn [bind fst snd].
      case_tests; intros [= <- <- <-]; auto;
        right; (split; [reflexivity|]); do 2 eexists;
        (split; [reflexivity|]); (split; [reflexivity|]); cbn [fst snd];
        solve [left; auto | right; repeat split; auto; lia].
  - destruct (negb (threshold_span =? -1)).
    + intros [= <- <- <-]. auto.
    + destruct (dict_getitem rest_sites c1) as [sites1|]; [|discriminate].
      cbn [bind].
      destruct (find_frag sites1 s1 e1 rest_site_len) as [f1|]; [|discriminate].
      cbn [bind].
      destruct (dict_getitem rest_sites c2) as [sites2|]; [|discriminate].
      cbn [bind].
      destruct (find_frag sites2 s2 e2 rest_site_len) as [f2|]; [|discriminate].
      cbn [bind]. intros [= <- <- <-]. auto.
Qed.

Lemma bedpe_type_artifact_only_when_mapped_witness :
  "re-ligation" = "normal" \/
  ("chr1" = "chr1" /\
   exists f1 f2,
     Some (1, "e") = Some f1 /\ Some (2, "s") = Some f2 /\
     (("re-ligation" = "self-ligation" /\ fst f1 = fst f2) \/
      ("re-ligation" = "re-ligation" /\ fst f2 = fst f1 + 1 /\
       snd f2 = "s" /\ snd f1 = "e"))).
Proof.
  apply (bedpe_type_artifact_only_when_mapped demo_sites
           (mkBedpeItems "chr1" 150 190 "chr1" 210 240 []) 1000 10
           "re-ligation" (Some (1, "e")) (Some (2, "s"))).
  vm_compute. reflexivity.
Defined.

(** X7: the span threshold only ever skips the mapping: whenever
    [bedpe_type] returns fragments under some threshold, the force-check
    threshold -1 returns the same type and the same fragments. *)
Theorem bedpe_type_force_check_agrees
    (rest_sites : gmap string (list Z)) (items : BedpeItems)
    (threshold_span rest_site_len : Z)
    (type_ : string) (f1 f2 : frag) :
  bedpe_type rest_sites items threshold_span rest_site_len
    = Ok (Some (type_, Some f1, Some f2)) ->
  bedpe_type rest_sites items (-1) rest_site_len
    = Ok (Some (type_, Some f1, Some f2)).
Proof.
  destruct items as [c1 s1 e1 c2 s2 e2 rest]. unfold bedpe_type.
  destruct (negb (String.eqb c1 c2)).
  - destruct (Z.eqb_spec threshold_span (-1)) as [->|_]; cbn [negb];
      [tauto | discriminate].
  - destruct (Z.eqb_spec threshold_span (-1)) as [->|_]; [tauto|].
    cbn [negb Z.eqb]. rewrite andb_false_r, andb_true_r.
    destruct (Z.abs (s1 - s2) >? threshold_span); [discriminate | tauto].
Qed.

Lemma bedpe_type_force_check_agrees_witness :
  bedpe_type demo_sites (mkBedpeItems "chr1" 150 190 "chr1" 210 240 [])
             (-1) 10
    = Ok (Some ("re-ligation", Some (1, "e"), Some (2, "s"))).
Proof.
  apply (bedpe_type_force_check_agrees demo_sites
           (mkBedpeItems "chr1" 150 190 "chr1" 210 240 []) 1000 10).
  vm_compute. reflexivity.
Defined.

Lemma dict_getitem_Raise {V : Type} (d : gmap string V) (k : string) (e : exn) :
  dict_getitem d k = Raise e -> e = KeyError k.
Proof. unfold dict_getitem. destruct (d !! k); congruence. Qed.

Lemma find_frag_exceptions (sites : list Z) (start end_ rest_site_len : Z) (e : exn) :
  find_frag sites start end_ rest_site_len = Raise e ->
  e = AssertionError \/ e = IndexError.
Proof.
  unfold find_frag, ndarray_getitem. cbv zeta.
  repeat match goal with
         | |- context [if ?b then _ else _] => destruct b; cbn [bind]
         end; intros [= <-]; auto.
Qed.

(** X8: the exceptions of [bedpe_type] are [AssertionError] and [IndexError]
    (from [find_frag]) and [KeyError]; a [KeyError] names a chromosome of the
    record that the sites table does not hold, and none is raised on a fast
    path: a cross-chromosome pair under a threshold other than -1 raises
    nothing. *)
Theorem bedpe_type_exceptions
    (rest_sites : gmap string (list Z)) (items : BedpeItems)
    (threshold_span rest_site_len : Z) (e : exn) :
  bedpe_type rest_sites items threshold_span rest_site_len = Raise e ->
  (e = AssertionError \/ e = IndexError \/
   exists k, e = KeyError k /\ (k = chr1 items \/ k = chr2 items) /\
             rest_sites !! k = None) /\
  (chr1 items = chr2 items \/ threshold_span = -1).
Proof.
  intros H. split.
  - destruct e as [| |k|]; auto.
    + right. right. exists k. split; [reflexivity|].
      eapply bedpe_type_KeyError; eassumption.
    + exfalso. revert H.
      destruct items as [c1 s1 e1 c2 s2 e2 rest]. unfold bedpe_type.
      repeat match goal with
             | |- context [dict_getitem ?d ?k] =>
                 let E := fresh "E" in
                 destruct (dict_getitem d k) eqn:E; cbn [bind];
                 [|apply dict_getitem_Raise in E; subst; discriminate]
             | |- context [find_frag ?a ?b ?c ?d] =>
                 let E := fresh "E" in
                 destruct (find_frag a b c d) eqn:E; cbn [bind];
                 [|apply find_frag_exceptions in E; destruct E; subst;
                   discriminate]
             | |- context [if ?b then _ else _] => destruct b; try discriminate
             end; discriminate.
  - revert H. destruct items as [c1 s1 e1 c2 s2 e2 rest]. cbn [chr1 chr2].
    unfold bedpe_type.
    destruct (String.eqb_spec c1 c2); cbn [negb]; [auto|].
    destruct (Z.eqb_spec threshold_span (-1)); cbn [negb]; [auto|discriminate].
Qed.

Lemma bedpe_type_exceptions_witness :
  (IndexError = AssertionError \/ IndexError = IndexError \/
   exists k, IndexError = KeyError k /\ (k = "chr1" \/ k = "chr1") /\
             demo_sites !! k = None) /\
  ("chr1" = "chr1" \/ 1000 = -1).
Proof.
  apply (bedpe_type_exceptions demo_sites
           (mkBedpeItems "chr1" 150 190 "chr1" 350 400 []) 1000 10 IndexError).
  vm_compute. reflexivity.
Defined.

(** ** worker: counts, files and chunks *)

Lemma bedpe_type_type_values
    (rest_sites : gmap string (list Z)) (items : BedpeItems)
    (threshold_span rest_site_len : Z)
    (type_ : string) (frag1 frag2 : option frag) :
  bedpe_type rest_sites items threshold_span rest_site_len
    = Ok (Some (type_, frag1, frag2)) ->
  type_ = "normal" \/ type_ = "self-ligation" \/ type_ = "re-ligation".
Proof.
  destruct items as [c1 s1 e1 c2 s2 e2 rest]. unfold bedpe_type.
  repeat match goal with
         | |- context [dict_getitem ?d ?k] =>
             destruct (dict_getitem d k); cbn [bind]; [|discriminate]
         | |- context [find_frag ?a ?b ?c ?d] =>
             destruct (find_frag a b c d); cbn [bind]; [|discriminate]
         | |- context [if ?b then _ else _] => destruct b; try discriminate
         end; intros [= <- <- <-]; auto.
Qed.

Lemma bedpe_type_frags_shape
    (rest_sites : gmap string (list Z)) (items : BedpeItems)
    (threshold_span rest_site_len : Z)
    (type_ : string) (frag1 frag2 : option frag) :
  bedpe_type rest_sites items threshold_span rest_site_len
    = Ok (Some (type_, frag1, frag2)) ->
  (frag1 = None /\ frag2 = None) \/
  (exists f1 f2, frag1 = Some f1 /\ frag2 = Some f2).
Proof.
  destruct items as [c1 s1 e1 c2 s2 e2 rest]. unfold bedpe_type.
  repeat match goal with
         | |- context [dict_getitem ?d ?k] =>
             destruct (dict_getitem d k); cbn [bind]; [|discriminate]
         | |- context [find_frag ?a ?b ?c ?d] =>
             destruct (find_frag a b c d); cbn [bind]; [|discriminate]
         | |- context [if ?b then _ else _] => destruct b; try discriminate
         end; intros [= <- <- <-]; eauto.
Qed.

(** What one round of the worker does to its state: it appends to the state
    a one-record run [d] that holds either one line and the matching count,
    or one warning. *)
Lemma worker_record_delta (rest_sites : gmap string (list Z))
    (rest_site_len threshold_span : Z) (items : BedpeItems) :
  (exists e, forall st,
     worker_record rest_sites rest_site_len threshold_span st items = Raise e) \/
  (exists d,
     (forall st, worker_record rest_sites rest_site_len threshold_span st items
                 = Ok (state_app st d)) /\
     l_counts d = lines_written d /\
     (let '(n, s, r) := l_counts d in
      n + s + r + Z.of_nat (length (warnings d)) = 1)).
Proof.
  unfold worker_record.
  destruct (bedpe_type rest_sites items threshold_span rest_site_len)
    as [[[[type_ frag1] frag2]|]|e] eqn:Hb.
  - pose proof (bedpe_type_type_values _ _ _ _ _ _ _ Hb) as Hty.
    destruct (bedpe_type_frags_shape _ _ _ _ _ _ _ Hb) as [[-> ->]|(f1 & f2 & -> & ->)];
      cbn [bind];
      destruct Hty as [->|[->| ->]]; cbn [String.eqb Ascii.eqb Bool.eqb andb];
      right;
      match goal with
      | |- context [Ok (mkWorkerState (output_f _ ++ [?l]) _ _ _ _)] =>
          exists (mkWorkerState [l] [] [] (1, 0, 0) [])
      | |- context [Ok (mkWorkerState _ (err_sel_f _ ++ [?l]) _ _ _)] =>
          exists (mkWorkerState [] [l] [] (0, 1, 0) [])
      | |- context [Ok (mkWorkerState _ _ (err_re_f _ ++ [?l]) _ _)] =>
          exists (mkWorkerState [] [] [l] (0, 0, 1) [])
      end;
      (split; [|split; reflexivity]);
      intros st; unfold state_app, counts_add; cbn;
      destruct (l_counts st) as [[n s] r]; rewrite ?app_nil_r;
      repeat f_equal; lia.
  - left. exists TypeError. reflexivity.
  - destruct e as [| |k|].
    + left. exists AssertionError. reflexivity.
    + left. exists IndexError. reflexivity.
    + right. exists (mkWorkerState [] [] [] (0, 0, 0) [KeyError k]).
      split; [|split; reflexivity].
      intros st. unfold skipped, state_app, counts_add. cbn.
      destruct (l_counts st) as [[n s] r]. rewrite !app_nil_r.
      repeat f_equal; lia.
    + left. exists TypeError. reflexivity.
Qed.

Lemma counts_add_assoc (a b c : Z * Z * Z) :
  counts_add (counts_add a b) c = counts_add a (counts_add b c).
Proof.
  destruct a as [[a1 a2] a3], b as [[b1 b2] b3], c as [[c1 c2] c3].
  unfold counts_add. rewrite !Z.add_assoc. reflexivity.
Qed.

Lemma counts_add_zero_r (a : Z * Z * Z) : counts_add a (0, 0, 0) = a.
Proof. destruct a as [[a1 a2] a3]. unfold counts_add. rewrite !Z.add_0_r. reflexivity. Qed.

Lemma counts_add_zero_l (a : Z * Z * Z) : counts_add (0, 0, 0) a = a.
Proof. destruct a as [[a1 a2] a3]. reflexivity. Qed.

Lemma state_app_assoc (a b c : worker_state) :
  state_app (state_app a b) c = state_app a (state_app b c).
Proof.
  unfold state_app. cbn.
  rewrite <- !(app_assoc (A := string)), <- (app_assoc (A := exn)).
  rewrite counts_add_assoc. reflexivity.
Qed.

Lemma state_app_init_r (st : worker_state) : state_app st init_state = st.
Proof.
  destruct st as [o s e [[cn cs] cr] w]. unfold state_app, init_state. cbn.
  rewrite !app_nil_r, !Z.add_0_r. reflexivity.
Qed.

Lemma state_app_init_l (st : worker_state) : state_app init_state st = st.
Proof. destruct st as [o s e [[cn cs] cr] w]. reflexivity. Qed.

Lemma lines_written_app (a b : worker_state) :
  lines_written (state_app a b) = counts_add (lines_written a) (lines_written b).
Proof.
  unfold lines_written, state_app, counts_add. cbn.
  rewrite !length_app, !Nat2Z.inj_add. reflexivity.
Qed.

Lemma accounted_app (a b : worker_state) :
  accounted (state_app a b) = accounted a + accounted b.
Proof.
  unfold accounted, state_app, counts_add. cbn.
  destruct (l_counts a) as [[n s] r], (l_counts b) as [[n' s'] r'].
  rewrite length_app, Nat2Z.inj_add. lia.
Qed.

(** A chunk either ends the worker with an exception, whatever its state, or
    appends to every state the same run [d]. *)
Lemma worker_chunk_delta (rest_sites : gmap string (list Z))
    (rest_site_len threshold_span : Z) (chunk : list BedpeItems) :
  (exists e, forall st,
     worker_chunk rest_sites rest_site_len threshold_span st chunk = Raise e) \/
  (exists d,
     (forall st, worker_chunk rest_sites rest_site_len threshold_span st chunk
                 = Ok (state_app st d)) /\
     l_counts d = lines_written d /\
     accounted d = Z.of_nat (length chunk)).
Proof.
  induction chunk as [|items chunk IH]; cbn [worker_chunk].
  - right. exists init_state. split; [|split; reflexivity].
    intros st. rewrite state_app_init_r. reflexivity.
  - destruct (worker_record_delta rest_sites rest_site_len threshold_span items)
      as [[e He]|(d1 & Hd1 & Hc1 & Ha1)].
    + left. exists e. intros st. rewrite He. reflexivity.
    + destruct IH as [[e He]|(d2 & Hd2 & Hc2 & Ha2)].
      * left. exists e. intros st. rewrite Hd1. cbn [bind]. apply He.
      * right. exists (state_app d1 d2). split; [|split].
        -- intros st. rewrite Hd1. cbn [bind]. rewrite Hd2.
           rewrite state_app_assoc. reflexivity.
        -- rewrite lines_written_app, <- Hc1, <- Hc2. reflexivity.
        -- rewrite accounted_app, Ha2. cbn [length].
           unfold accounted. destruct (l_counts d1) as [[n s] r]. lia.
Qed.

(** X9: the local counts of a worker are the numbers of lines in its three
    files: when this holds before a chunk (as it does for the fresh files and
    zero counts a worker starts with), it holds after the chunk. *)
Theorem worker_chunk_counts_match_files (rest_sites : gmap string (list Z))
    (rest_site_len threshold_span : Z) (st st' : worker_state)
    (chunk : list BedpeItems) :
  l_counts st = lines_written st ->
  worker_chunk rest_sites rest_site_len threshold_span st chunk = Ok st' ->
  l_counts st' = lines_written st'.
Proof.
  intros Hst Hrun.
  destruct (worker_chunk_delta rest_sites rest_site_len threshold_span chunk)
    as [[e He]|(d & Hd & Hc & _)].
  - rewrite He in Hrun. discriminate.
  - rewrite Hd in Hrun. injection Hrun as <-.
    rewrite lines_written_app, <- Hst, <- Hc. reflexivity.
Qed.

Lemma worker_chunk_counts_match_files_witness :
  l_counts (mkWorkerState
              [] []
              [String.concat tab ["chr1"; "150"; "190"; "chr1"; "210"; "240";
                                  "1-e"; "2-s"] +:+ newline]
              (0, 0, 1) [])
  = lines_written
      (mkWorkerState
         [] []
         [String.concat tab ["chr1"; "150"; "190"; "chr1"; "210"; "240";
                             "1-e"; "2-s"] +:+ newline]
         (0, 0, 1) []).
Proof.
  apply (worker_chunk_counts_match_files demo_sites 10 1000 init_state _
           [mkBedpeItems "chr1" 150 190 "chr1" 210 240 []]).
  - reflexivity.
  - vm_compute. reflexivity.
Defined.




(** X11: what a chunk makes the worker write, count and log does not depend
    on the state the worker is in: the run from any state is the run from
    fresh files and zero counts, appended to that state; an exception that
    ends one ends the other. *)
Theorem worker_chunk_frame (rest_sites : gmap string (list Z))
    (rest_site_len threshold_span : Z) (st : worker_state)
    (chunk : list BedpeItems) :
  worker_chunk rest_sites rest_site_len threshold_span st chunk
  = match worker_chunk rest_sites rest_site_len threshold_span init_state chunk with
    | Ok d => Ok (state_app st d)
    | Raise e => Raise e
    end.
Proof.
  destruct (worker_chunk_delta rest_sites rest_site_len threshold_span chunk)
    as [[e He]|(d & Hd & _)].
  - rewrite !He. reflexivity.
  - rewrite !Hd, state_app_init_l. reflexivity.
Qed.

Lemma worker_chunk_app (rest_sites : gmap string (list Z))
    (rest_site_len threshold_span : Z) (chunk1 chunk2 : list BedpeItems) :
  forall st,
    worker_chunk rest_sites rest_site_len threshold_span st (chunk1 ++ chunk2)
    = (do st' <- worker_chunk rest_sites rest_site_len threshold_span st chunk1;;
       worker_chunk rest_sites rest_site_len threshold_span st' chunk2).
Proof.
  induction chunk1 as [|items chunk1 IH]; intros st; [reflexivity|].
  cbn [app worker_chunk].
  destruct (worker_record rest_sites rest_site_len threshold_span st items);
    cbn [bind]; [apply IH | reflexivity].
Qed.

(** X12: how the records are cut into chunks does not matter to a worker: on
    a queue that holds the chunks and then a [None], it ends in the state
    that the loop over all their records in one chunk gives, with its local
    counts added to the shared counts; it crashes when that loop does. *)
Theorem worker_loop_is_one_chunk (rest_sites : gmap string (list Z))
    (rest_site_len threshold_span : Z)
    (chunks : list (list BedpeItems))
    (msgs : list (option (list BedpeItems))) (counts : Z * Z * Z) :
  forall st,
    worker_loop rest_sites rest_site_len threshold_span st
                (map Some chunks ++ None :: msgs) counts
    = match worker_chunk rest_sites rest_site_len threshold_span st
                         (concat chunks) with
      | Ok st' => Finished st' (counts_add counts (l_counts st'))
      | Raise e => Crashed e
      end.
Proof.
  induction chunks as [|chunk chunks IH]; intros st; [reflexivity|].
  cbn [map app worker_loop concat]. rewrite worker_chunk_app.
  destruct (worker_chunk rest_sites rest_site_len threshold_span st chunk);
    cbn [bind]; [apply IH | reflexivity].
Qed.

(** ** The pool of workers *)

Ltac counts_lia :=
  repeat match goal with
         | H : context [l_counts ?s] |- _ =>
             let x := fresh "c" in set (x := l_counts s) in *; clearbody x
         | |- context [l_counts ?s] =>
             let x := fresh "c" in set (x := l_counts s) in *; clearbody x
         | H : context [running_counts ?s] |- _ =>
             let x := fresh "c" in set (x := running_counts s) in *; clearbody x
         | |- context [running_counts ?s] =>
             let x := fresh "c" in set (x := running_counts s) in *; clearbody x
         end;
  repeat match goal with
         | x : (Z * Z * Z)%type |- _ => destruct x as [[? ?] ?]
         end;
  unfold counts_add in *; cbv beta iota zeta in *;
  repeat match goal with
         | H : (_, _, _) = (_, _, _) |- _ => injection H as ? ? ?
         end;
  try (f_equal; [f_equal|]); lia.

Lemma running_counts_insert_running (st st' : worker_state) :
  forall ws i,
    ws !! i = Some (Running st) ->
    counts_add (running_counts (<[i := Running st']> ws)) (l_counts st)
    = counts_add (running_counts ws) (l_counts st').
Proof.
  induction ws as [|w ws IH]; intros i Hi; [discriminate|].
  destruct i as [|i]; cbn in Hi.
  - injection Hi as ->.
    change (<[0%nat := Running st']> (Running st :: ws)) with (Running st' :: ws).
    cbn [running_counts]. counts_lia.
  - specialize (IH i Hi).
    change (<[S i := Running st']> (w :: ws)) with (w :: <[i := Running st']> ws).
    destruct w; cbn [running_counts]; [|exact IH|exact IH].
    counts_lia.
Qed.

Lemma running_counts_insert_stopped (st : worker_state) (w' : wstatus) :
  (forall st', w' <> Running st') ->
  forall ws i,
    ws !! i = Some (Running st) ->
    counts_add (running_counts (<[i := w']> ws)) (l_counts st)
    = running_counts ws.
Proof.
  intros Hw'.
  induction ws as [|w ws IH]; intros i Hi; [discriminate|].
  destruct i as [|i]; cbn in Hi.
  - injection Hi as ->.
    change (<[0%nat := w']> (Running st :: ws)) with (w' :: ws).
    destruct w' as [st'| |]; [destruct (Hw' st' eq_refl)| |];
      cbn [running_counts]; counts_lia.
  - specialize (IH i Hi).
    change (<[S i := w']> (w :: ws)) with (w :: <[i := w']> ws).
    destruct w; cbn [running_counts]; [|exact IH|exact IH].
    counts_lia.
Qed.

Lemma exited_insert (st : worker_state) (w' : wstatus) :
  forall ws i,
    ws !! i = Some (Running st) ->
    exited (<[i := w']> ws)
    = (exited ws + match w' with Exited _ => 1 | _ => 0 end)%nat.
Proof.
  induction ws as [|w ws IH]; intros i Hi; [discriminate|].
  destruct i as [|i]; cbn in Hi.
  - injection Hi as ->.
    change (<[0%nat := w']> (Running st :: ws)) with (w' :: ws).
    destruct w'; cbn [exited]; lia.
  - specialize (IH i Hi).
    change (<[S i := w']> (w :: ws)) with (w :: <[i := w']> ws).
    destruct w; cbn [exited]; lia.
Qed.

Lemma no_dead_insert (st : worker_state) (w' : wstatus) :
  forall ws i,
    ws !! i = Some (Running st) ->
    no_dead (<[i := w']> ws) = true ->
    no_dead ws = true /\ (forall e, w' <> Dead e).
Proof.
  induction ws as [|w ws IH]; intros i Hi; [discriminate|].
  destruct i as [|i]; cbn in Hi.
  - injection Hi as ->.
    change (<[0%nat := w']> (Running st :: ws)) with (w' :: ws).
    destruct w'; cbn [no_dead]; intros H; split; try discriminate; auto.
  - change (<[S i := w']> (w :: ws)) with (w :: <[i := w']> ws).
    destruct w; cbn [no_dead]; try discriminate;
      intros H; exact (IH i Hi H).
Qed.

Lemma all_exited_facts (ws : list wstatus) :
  all_exited ws = true ->
  no_dead ws = true /\ exited ws = length ws /\ running_counts ws = (0, 0, 0).
Proof.
  induction ws as [|w ws IH]; [auto|].
  destruct w; cbn [all_exited]; try discriminate.
  intros H. destruct (IH H) as (Hd & He & Hr).
  cbn [no_dead exited running_counts length]. auto.
Qed.

Lemma running_counts_fresh (n : nat) :
  running_counts (replicate n (Running init_state)) = (0, 0, 0).
Proof. induction n as [|n IH]; [reflexivity|]. cbn. rewrite IH. reflexivity. Qed.

Lemma exited_fresh (n : nat) : exited (replicate n (Running init_state)) = 0%nat.
Proof. induction n as [|n IH]; [reflexivity|exact IH]. Qed.

Lemma no_dead_fresh (n : nat) : no_dead (replicate n (Running init_state)) = true.
Proof. induction n as [|n IH]; [reflexivity|exact IH]. Qed.

Section PoolRun.

Variable rest_sites : gmap string (list Z).
Variables rest_site_len threshold_span : Z.
Variable chunks : list (list BedpeItems).
Variable processes : nat.

Local Abbreviation step := (pool_step rest_sites rest_site_len threshold_span).
Local Abbreviation inv :=
  (pool_inv rest_sites rest_site_len threshold_span chunks processes).

Lemma pool_inv_init : inv (pool_init chunks processes).
Proof.
  exists [], chunks, processes. unfold pool_init. cbn [p_queue p_workers p_counts].
  rewrite length_replicate, exited_fresh, running_counts_fresh.
  repeat split; try lia.
  intros _. exists init_state. split; reflexivity.
Qed.

Lemma queue_head_chunk (chunk : list BedpeItems)
    (q : list (option (list BedpeItems))) (todo : list (list BedpeItems)) (k : nat) :
  Some chunk :: q = (map Some todo ++ replicate k None)%list ->
  exists todo', todo = chunk :: todo' /\ q = (map Some todo' ++ replicate k None)%list.
Proof.
  destruct todo as [|c0 todo']; cbn.
  - destruct k; discriminate.
  - intros [= -> ->]. eauto.
Qed.

Lemma queue_head_none (q : list (option (list BedpeItems)))
    (todo : list (list BedpeItems)) (k : nat) :
  None :: q = (map Some todo ++ replicate k None)%list ->
  exists k', todo = [] /\ k = S k' /\ q = replicate k' None.
Proof.
  destruct todo as [|c0 todo']; cbn; [|discriminate].
  destruct k as [|k']; cbn; [discriminate|].
  intros [= ->]. eauto.
Qed.

Lemma pool_inv_step (p p' : pool) : inv p -> step p p' -> inv p'.
Proof.
  intros (taken & todo & k & Hchunks & Hq & Hlen & Hk & Htodo & Hcounts) Hstep.
  destruct Hstep as [q ws c i st st' chunk Hi Hrun
                    |q ws c i st chunk e Hi Hrun
                    |q ws c i st Hi];
    cbn [p_queue p_workers p_counts] in *.
  - destruct (queue_head_chunk _ _ _ _ Hq) as (todo' & -> & ->).
    exists (taken ++ [chunk])%list, todo', k.
    cbn [p_queue p_workers p_counts].
    rewrite length_insert, (exited_insert st _ ws i Hi), Nat.add_0_r.
    rewrite <- app_assoc.
    repeat split; try assumption.
    + intros Hlt. specialize (Htodo Hlt). discriminate.
    + intros Hnd.
      destruct (no_dead_insert st _ ws i Hi Hnd) as [Hnd' _].
      destruct (Hcounts Hnd') as (d & Hd & Hsum).
      destruct (worker_chunk_delta rest_sites rest_site_len threshold_span chunk)
        as [[e He]|(dc & Hdc & _)].
      * rewrite He in Hrun. discriminate.
      * rewrite Hdc in Hrun. injection Hrun as <-.
        exists (state_app d dc). split.
        -- rewrite concat_app. cbn [concat]. rewrite app_nil_r.
           rewrite worker_chunk_app, Hd. cbn [bind]. apply Hdc.
        -- pose proof (running_counts_insert_running st (state_app st dc) ws i Hi)
             as Hins.
           cbn [state_app l_counts] in *. counts_lia.
  - destruct (queue_head_chunk _ _ _ _ Hq) as (todo' & -> & ->).
    exists (taken ++ [chunk])%list, todo', k.
    cbn [p_queue p_workers p_counts].
    rewrite length_insert, (exited_insert st _ ws i Hi), Nat.add_0_r.
    rewrite <- app_assoc.
    repeat split; try assumption.
    + intros Hlt. specialize (Htodo Hlt). discriminate.
    + intros Hnd.
      destruct (no_dead_insert st _ ws i Hi Hnd) as [_ Habs].
      destruct (Habs e eq_refl).
  - destruct (queue_head_none _ _ _ Hq) as (k' & -> & -> & ->).
    exists taken, [], k'.
    cbn [p_queue p_workers p_counts].
    rewrite length_insert, (exited_insert st _ ws i Hi).
    repeat split; try assumption; try lia.
    intros Hnd.
    destruct (no_dead_insert st _ ws i Hi Hnd) as [Hnd' _].
    destruct (Hcounts Hnd') as (d & Hd & Hsum).
    exists d. split; [assumption|].
    pose proof (running_counts_insert_stopped st (Exited st)
                  ltac:(discriminate) ws i Hi) as Hins.
    counts_lia.
Qed.

Lemma pool_inv_reachable (p : pool) :
  rtc step (pool_init chunks processes) p -> inv p.
Proof.
  intros Hrun.
  refine (rtc_ind_r (fun p => inv p) _ pool_inv_init _ p Hrun).
  intros y z _ Hstep Hy. eapply pool_inv_step; eassumption.
Qed.

End PoolRun.

(** X13: the counts of the pool are those of a single loop over all
    records. With at least one worker process, whichever worker takes which
    chunk and in whatever order the workers get to the queue: once every
    worker has met its [None] (none has crashed), the queue is empty, the
    loop of one worker over the records of all chunks goes through as well,
    and the shared [counts] are exactly its local counts. *)
Theorem pool_counts_are_sequential (rest_sites : gmap string (list Z))
    (rest_site_len threshold_span : Z) (chunks : list (list BedpeItems))
    (processes : nat) (p : pool) :
  (0 < processes)%nat ->
  rtc (pool_step rest_sites rest_site_len threshold_span)
      (pool_init chunks processes) p ->
  all_exited (p_workers p) = true ->
  p_queue p = [] /\
  exists d,
    worker_chunk rest_sites rest_site_len threshold_span init_state
                 (concat chunks) = Ok d /\
    p_counts p = l_counts d.
Proof.
  intros Hpos Hrun Hall.
  destruct (pool_inv_reachable _ _ _ _ _ _ Hrun)
    as (taken & todo & k & Hchunks & Hq & Hlen & Hk & Htodo & Hcounts).
  destruct (all_exited_facts _ Hall) as (Hnd & Hex & Hzero).
  assert (k = 0)%nat as -> by lia.
  rewrite (Htodo Hpos) in *. rewrite app_nil_r in Hchunks. subst taken.
  split; [exact Hq|].
  destruct (Hcounts Hnd) as (d & Hd & Hsum).
  exists d. split; [assumption|].
  rewrite Hzero, counts_add_zero_r in Hsum. exact Hsum.
Qed.

Lemma pool_counts_are_sequential_witness :
  exists d,
    worker_chunk demo_sites 10 1000 init_state
      (concat [[mkBedpeItems "chr1" 150 190 "chr1" 210 240 []];
               [mkBedpeItems "chr1" 150 160 "chr1" 5000 5010 []]]) = Ok d /\
    (1, 0, 1) = l_counts d.
Proof.
  eassert (Hrun : rtc (pool_step demo_sites 10 1000)
                   (pool_init
                      [[mkBedpeItems "chr1" 150 190 "chr1" 210 240 []];
                       [mkBedpeItems "chr1" 150 160 "chr1" 5000 5010 []]] 2) _).
  { eapply rtc_l.
    { eapply (step_chunk _ _ _ _ _ _ 0%nat); [reflexivity | vm_compute; reflexivity]. }
    eapply rtc_l.
    { eapply (step_chunk _ _ _ _ _ _ 1%nat); [reflexivity | vm_compute; reflexivity]. }
    eapply rtc_l.
    { eapply (step_exit _ _ _ _ _ _ 1%nat). reflexivity. }
    eapply rtc_l.
    { eapply (step_exit _ _ _ _ _ _ 0%nat). reflexivity. }
    apply rtc_refl. }
  exact (proj2 (pool_counts_are_sequential demo_sites 10 1000 _ 2 _
                  ltac:(lia) Hrun eq_refl)).
Defined.

(** ** read_chunk and the reading loop *)

Section ReadChunk.

Variable parse_line_bedpe : string -> BedpeItems.

Lemma read_chunk_loop_chunk :
  forall rounds i file chunk,
    (0 < i)%nat \/ file <> [] \/ rounds = 0%nat ->
    read_chunk_loop parse_line_bedpe rounds i file chunk
    = Chunk (chunk ++ map parse_line_bedpe (firstn rounds file))
            (skipn rounds file).
Proof.
  induction rounds as [|rounds IH]; intros i file chunk Hcase.
  - cbn. rewrite app_nil_r. reflexivity.
  - destruct file as [|line file]; cbn [read_chunk_loop].
    + destruct Hcase as [Hi|[Hf|Hr]]; [|congruence|discriminate].
      destruct (Nat.eqb_spec i 0); [lia|]. cbn. rewrite app_nil_r. reflexivity.
    + rewrite IH by (left; lia). cbn [firstn skipn map].
      rewrite <- app_assoc. reflexivity.
Qed.

(** X14: [read_chunk] in closed form. With a positive chunk size it raises
    [StopIteration] exactly at the end of the file, and otherwise returns the
    parsed first [chunk_size] lines (all of them when fewer are left), in
    order, leaving the file at the line after them. With a chunk size of 0
    or less it returns an empty chunk and reads nothing, also at the end of
    the file. *)
Theorem read_chunk_closed_form (file : list string) (chunk_size : Z) :
  read_chunk parse_line_bedpe file chunk_size
  = if chunk_size <=? 0 then Chunk [] file
    else match file with
         | [] => StopIteration
         | _ :: _ =>
             Chunk (map parse_line_bedpe (firstn (Z.to_nat chunk_size) file))
                   (skipn (Z.to_nat chunk_size) file)
         end.
Proof.
  unfold read_chunk. destruct (Z.leb_spec chunk_size 0) as [Hle|Hgt].
  - replace (Z.to_nat chunk_size) with 0%nat by lia. reflexivity.
  - destruct file as [|line file].
    + destruct (Z.to_nat chunk_size) eqn:E; [lia|reflexivity].
    + rewrite read_chunk_loop_chunk by (right; left; discriminate). reflexivity.
Qed.

Lemma read_all_chunks_from (chunk_size : Z) :
  0 < chunk_size ->
  forall fuel file queue,
    (length file < fuel)%nat ->
    exists chunks,
      read_all parse_line_bedpe fuel file chunk_size queue
        = Some (queue ++ chunks) /\
      concat chunks = map parse_line_bedpe file /\
      (file = [] -> chunks = []) /\
      Forall (fun c : list BedpeItems =>
                (0 < length c)%nat /\ Z.of_nat (length c) <= chunk_size) chunks /\
      Forall (fun c : list BedpeItems => Z.of_nat (length c) = chunk_size)
             (removelast chunks).
Proof.
  intros Hpos.
  induction fuel as [|fuel IH]; intros file queue Hfuel; [lia|].
  cbn [read_all]. unfold read_chunk.
  destruct file as [|line file].
  - destruct (Z.to_nat chunk_size) eqn:E; [lia|]. cbn [read_chunk_loop Nat.eqb].
    exists []. rewrite app_nil_r. repeat split; constructor.
  - rewrite read_chunk_loop_chunk by (right; left; discriminate).
    cbn [app].
    set (n := Z.to_nat chunk_size) in *.
    set (chunk := map parse_line_bedpe (firstn n (line :: file))).
    assert (Hn : (0 < n)%nat) by (unfold n; lia).
    pose proof (length_skipn n (line :: file)) as Hskip.
    pose proof (length_firstn n (line :: file)) as Hfirst.
    cbn [length] in Hfuel, Hskip, Hfirst.
    destruct (IH (skipn n (line :: file)) (queue ++ [chunk])
                 ltac:(rewrite Hskip; lia))
      as (chunks & Hrun & Hcat & Hnil & Hall & Hfull).
    exists (chunk :: chunks).
    assert (Hlen : length chunk = Nat.min n (S (length file))).
    { unfold chunk. rewrite length_map. exact Hfirst. }
    split; [|split; [|split; [|split]]].
    + rewrite Hrun, <- app_assoc. reflexivity.
    + cbn [concat]. rewrite Hcat. unfold chunk.
      rewrite <- map_app, firstn_skipn. reflexivity.
    + discriminate.
    + constructor; [|assumption]. rewrite Hlen. unfold n in *. lia.
    + destruct chunks as [|c chunks]; [constructor|].
      cbn [removelast]. constructor; [|exact Hfull].
      destruct (skipn n (line :: file)) as [|l rest] eqn:E;
        [specialize (Hnil eq_refl); discriminate|].
      cbn [length] in Hskip. rewrite Hlen. unfold n in *. lia.
Qed.

(** X15: the reading loop of [_main] with a positive chunk size ends after
    at most one call of [read_chunk] per line and one more, and the chunks it
    puts on the queue are the parsed lines of the file, none lost, doubled or
    out of order; no chunk is empty or longer than [chunk_size], and every
    chunk before the last holds exactly [chunk_size] records. *)
Theorem read_all_chunks (file : list string) (chunk_size : Z) (fuel : nat) :
  0 < chunk_size ->
  (length file < fuel)%nat ->
  exists chunks,
    read_all parse_line_bedpe fuel file chunk_size [] = Some chunks /\
    concat chunks = map parse_line_bedpe file /\
    Forall (fun c : list BedpeItems =>
              (0 < length c)%nat /\ Z.of_nat (length c) <= chunk_size) chunks /\
    Forall (fun c : list BedpeItems => Z.of_nat (length c) = chunk_size)
           (removelast chunks).
Proof.
  intros Hpos Hfuel.
  destruct (read_all_chunks_from chunk_size Hpos fuel file [] Hfuel)
    as (chunks & Hrun & Hcat & _ & Hall & Hfull).
  exists chunks. auto.
Qed.

(** X16: with a chunk size of 0 or less the reading loop of [_main] never
    ends: every call of [read_chunk] returns an empty chunk without reading,
    so no amount of calls reaches [StopIteration]. *)
Theorem read_all_never_ends (file : list string) (chunk_size : Z) :
  chunk_size <= 0 ->
  forall fuel queue,
    read_all parse_line_bedpe fuel file chunk_size queue = None.
Proof.
  intros Hle. induction fuel as [|fuel IH]; intros queue; [reflexivity|].
  cbn [read_all]. unfold read_chunk.
  replace (Z.to_nat chunk_size) with 0%nat by lia. cbn [read_chunk_loop].
  apply IH.
Qed.

End ReadChunk.

Lemma read_all_chunks_witness :
  exists chunks,
    read_all (fun l => mkBedpeItems l 0 0 l 0 0 []) 4 ["a"; "b"; "c"] 2 []
      = Some chunks /\
    concat chunks = map (fun l => mkBedpeItems l 0 0 l 0 0 []) ["a"; "b"; "c"] /\
    Forall (fun c : list BedpeItems =>
              (0 < length c)%nat /\ Z.of_nat (length c) <= 2) chunks /\
    Forall (fun c : list BedpeItems => Z.of_nat (length c) = 2)
           (removelast chunks).
Proof.
  apply (read_all_chunks (fun l => mkBedpeItems l 0 0 l 0 0 [])
           ["a"; "b"; "c"] 2 4); [lia | simpl; lia].
Defined.

Lemma read_all_never_ends_witness :
  read_all (fun l => mkBedpeItems l 0 0 l 0 0 []) 1000 ["a"; "b"; "c"] 0 []
    = None.
Proof.
  apply (read_all_never_ends (fun l => mkBedpeItems l 0 0 l 0 0 [])
           ["a"; "b"; "c"] 0). lia.
Defined.

(** ** load_rest_sites *)

Lemma load_rest_sites_loop_len :
  forall lines idx rest_sites len,
    idx <> 0%nat ->
    snd (load_rest_sites_loop idx lines rest_sites len) = len.
Proof.
  induction lines as [|line lines IH]; intros idx rest_sites len Hidx;
    [reflexivity|].
  cbn [load_rest_sites_loop]. cbv zeta.
  destruct (Nat.eqb_spec idx 0); [contradiction|].
  apply IH. discriminate.
Qed.

Lemma load_rest_sites_loop_lookup (c : string) :
  forall lines idx rest_sites len,
    fst (load_rest_sites_loop idx lines rest_sites len) !! c
    = match rest_sites !! c, starts_of c lines with
      | None, [] => None
      | None, l => Some l
      | Some l0, l => Some (l0 ++ l)
      end.
Proof.
  induction lines as [|line lines IH]; intros idx rest_sites len.
  - cbn. destruct (rest_sites !! c); [rewrite app_nil_r|]; reflexivity.
  - cbn [load_rest_sites_loop]. cbv zeta. rewrite IH.
    unfold starts_of. cbn [List.filter].
    rewrite lookup_alter.
    destruct (String.eqb_spec (bed_chr line) c) as [Heq|Hne].
    + rewrite decide_True by assumption. subst c.
      destruct (rest_sites !! bed_chr line) as [l0|] eqn:Hl.
      * rewrite Hl. cbn [fmap option_fmap option_map map].
        rewrite <- app_assoc. reflexivity.
      * rewrite lookup_insert_eq. cbn [fmap option_fmap option_map map app].
        reflexivity.
    + rewrite decide_False by assumption.
      destruct (rest_sites !! bed_chr line) eqn:Hl; [reflexivity|].
      rewrite lookup_insert_ne by assumption. reflexivity.
Qed.

(** X17: [load_rest_sites] on the lines of a gzipped bed file. On a file
    without lines it raises (the name [rest_site_len] is never bound). On
    any other file the restriction-site length is [end - start] of the first
    line, and the table holds, for each chromosome that occurs in the file,
    the start positions of its lines in file order, and no other key. *)
Theorem load_rest_sites_table :
  load_rest_sites [] = None /\
  forall line lines,
    exists rest_sites,
      load_rest_sites (line :: lines)
        = Some (rest_sites, bed_end line - bed_start line) /\
      forall c,
        rest_sites !! c
        = match starts_of c (line :: lines) with
          | [] => None
          | l => Some l
          end.
Proof.
  split; [reflexivity|].
  intros line lines. unfold load_rest_sites.
  destruct (load_rest_sites_loop 0 (line :: lines) ∅ None) as [rs len] eqn:E.
  assert (Hlen : len = Some (bed_end line - bed_start line)).
  { change len with (snd (rs, len)). rewrite <- E.
    cbn [load_rest_sites_loop Nat.eqb]. cbv zeta.
    apply load_rest_sites_loop_len. discriminate. }
  subst len. exists rs. split; [reflexivity|].
  intros c. change rs with (fst (rs, Some (bed_end line - bed_start line))).
  rewrite <- E, load_rest_sites_loop_lookup, lookup_empty. reflexivity.
Qed.

(** X18: on a bed file whose lines are sorted by start within each
    chromosome, every array of the loaded table is non-empty and ascending:
    what [find_frag] needs of the array it searches. *)
Theorem load_rest_sites_arrays_ascending (lines : list Bed6)
    (rest_sites : gmap string (list Z)) (rest_site_len : Z)
    (c : string) (sites : list Z) :
  (forall c', ascending (starts_of c' lines) = true) ->
  load_rest_sites lines = Some (rest_sites, rest_site_len) ->
  rest_sites !! c = Some sites ->
  sites <> [] /\ ascending sites = true /\ sites = starts_of c lines.
Proof.
  intros Hsorted Hload Hc.
  destruct lines as [|line lines]; [discriminate|].
  unfold load_rest_sites in Hload.
  destruct (load_rest_sites_loop 0 (line :: lines) ∅ None) as [rs len] eqn:E.
  destruct len as [len|]; [|discriminate]. injection Hload as -> ->.
  assert (Hlook : rest_sites !! c
                  = match starts_of c (line :: lines) with
                    | [] => None
                    | l => Some l
                    end).
  { change rest_sites with (fst (rest_sites, Some rest_site_len)).
    rewrite <- E, load_rest_sites_loop_lookup, lookup_empty. reflexivity. }
  rewrite Hc in Hlook. specialize (Hsorted c).
  destruct (starts_of c (line :: lines)) as [|x l]; [discriminate|].
  injection Hlook as ->. auto.
Qed.

Lemma load_rest_sites_arrays_ascending_witness :
  [100; 200; 300] <> [] /\ ascending [100; 200; 300] = true /\
  [100; 200; 300]
  = starts_of "chr1" [mkBed6 "chr1" 100 106; mkBed6 "chr1" 200 206;
                      mkBed6 "chr2" 400 406; mkBed6 "chr1" 300 306;
                      mkBed6 "chr2" 500 506].
Proof.
  apply (load_rest_sites_arrays_ascending
           [mkBed6 "chr1" 100 106; mkBed6 "chr1" 200 206;
            mkBed6 "chr2" 400 406; mkBed6 "chr1" 300 306;
            mkBed6 "chr2" 500 506]
           (fst (load_rest_sites_loop 0
                   [mkBed6 "chr1" 100 106; mkBed6 "chr1" 200 206;
                    mkBed6 "chr2" 400 406; mkBed6 "chr1" 300 306;
                    mkBed6 "chr2" 500 506] ∅ None))
           6 "chr1" [100; 200; 300]).
  - intros c'. unfold starts_of. cbn [List.filter bed_chr].
    destruct (String.eqb_spec "chr1" c') as [<-|H1]; [reflexivity|].
    destruct (String.eqb_spec "chr2" c') as [<-|H2]; reflexivity.
  - vm_compute. reflexivity.
  - vm_compute. reflexivity.
Defined.

(** ** possible_frag_len *)

Lemma np_diff_length (a : list Z) : length (np_diff a) = pred (length a).
Proof.
  induction a as [|x a IH]; [reflexivity|].
  destruct a as [|y a]; [reflexivity|].
  cbn [np_diff length pred] in *. rewrite IH. reflexivity.
Qed.

Lemma np_diff_nth (a : list Z) :
  forall i, (S i < length a)%nat ->
    nth i (np_diff a) 0 = wrap64 (nth (S i) a 0 - nth i a 0).
Proof.
  induction a as [|x a IH]; intros i Hi; [simpl in Hi; lia|].
  destruct a as [|y a]; [simpl in Hi; lia|].
  destruct i as [|i]; [reflexivity|].
  change (nth (S i) (np_diff (x :: y :: a)) 0)
    with (nth i (np_diff (y :: a)) 0).
  rewrite IH by (simpl in Hi |- *; lia). reflexivity.
Qed.

Lemma possible_frag_len_nth (positions : list Z) (i : nat) :
  all_positions positions = true ->
  (S i < length positions)%nat ->
  nth i (possible_frag_len positions) 0
  = Z.abs (nth (S i) positions 0 - nth i positions 0).
Proof.
  intros Hpos Hi. unfold possible_frag_len.
  change 0 with (np_abs 0) at 1. rewrite map_nth, np_diff_nth by exact Hi.
  pose proof (all_positions_nth positions (S i) Hpos ltac:(lia)).
  pose proof (all_positions_nth positions i Hpos ltac:(lia)).
  unfold np_abs. rewrite (wrap64_id (_ - _)) by lia.
  apply wrap64_id. lia.
Qed.

(** X19: [possible_frag_len] gives one length less than there are
    positions (none for an empty or one-element list); for positions of the
    data model (non-negative, fitting the int64 array) none of the lengths is
    negative, and the [i]-th is the distance between positions [i] and
    [i+1]. *)
Theorem possible_frag_len_shape (positions : list Z) :
  all_positions positions = true ->
  length (possible_frag_len positions) = pred (length positions) /\
  Forall (fun l => 0 <= l) (possible_frag_len positions) /\
  forall i, (S i < length positions)%nat ->
    nth i (possible_frag_len positions) 0
    = Z.abs (nth (S i) positions 0 - nth i positions 0).
Proof.
  intros Hpos.
  assert (Hlen : length (possible_frag_len positions) = pred (length positions)).
  { unfold possible_frag_len. rewrite length_map. apply np_diff_length. }
  split; [exact Hlen|]. split.
  - apply List.Forall_forall. intros l Hl.
    destruct (In_nth _ _ 0 Hl) as (i & Hi & <-).
    rewrite possible_frag_len_nth by (assumption || lia). lia.
  - intros i Hi. apply possible_frag_len_nth; assumption.
Qed.

Lemma possible_frag_len_shape_witness :
  length (possible_frag_len [100; 300; 250]) = pred (length [100; 300; 250]) /\
  Forall (fun l => 0 <= l) (possible_frag_len [100; 300; 250]) /\
  forall i, (S i < length [100; 300; 250])%nat ->
    nth i (possible_frag_len [100; 300; 250]) 0
    = Z.abs (nth (S i) [100; 300; 250] 0 - nth i [100; 300; 250] 0).
Proof.
  apply (possible_frag_len_shape [100; 300; 250]). reflexivity.
Defined.

(** Outside the data model the differences wrap around, and the absolute
    value of the least int64 value is that value. *)
Example possible_frag_len_wraps :
  possible_frag_len [0; 9223372036854775807; -1]
    = [9223372036854775807; -9223372036854775808] /\
  possible_frag_len [-9223372036854775808; 9223372036854775807] = [1].
Proof. split; vm_compute; reflexivity. Qed.

(** The length of the int64 array is not touched by the wrap-around: the
    lengths also number one less than the positions on any list. *)
Lemma possible_frag_len_length (positions : list Z) :
  length (possible_frag_len positions) = pred (length positions).
Proof. unfold possible_frag_len. rewrite length_map. apply np_diff_length. Qed.

Lemma all_positions_tail (x : Z) (l : list Z) :
  all_positions (x :: l) = true -> all_positions l = true.
Proof. unfold all_positions. cbn [forallb]. intros H. apply andb_prop in H. tauto. Qed.

Lemma possible_frag_len_sum (a : list Z) :
  ascending a = true -> all_positions a = true -> a <> [] ->
  fold_right Z.add 0 (possible_frag_len a) = List.last a 0 - hd 0 a.
Proof.
  induction a as [|x a IH]; intros Hasc Hpos Hne; [congruence|].
  destruct a as [|y a]; [cbn; lia|].
  specialize (IH (ascending_tail _ _ Hasc) (all_positions_tail _ _ Hpos)
                 ltac:(discriminate)).
  pose proof (all_positions_nth (x :: y :: a) 0 Hpos ltac:(simpl; lia)) as Hx.
  pose proof (all_positions_nth (x :: y :: a) 1 Hpos ltac:(simpl; lia)) as Hy.
  cbn [nth] in Hx, Hy.
  assert (Hxy : x <= y).
  { cbn [ascending] in Hasc. apply andb_prop in Hasc. lia. }
  change (possible_frag_len (x :: y :: a))
    with (np_abs (wrap64 (y - x)) :: possible_frag_len (y :: a)).
  cbn [fold_right]. rewrite IH.
  unfold np_abs. rewrite (wrap64_id (y - x)) by lia.
  rewrite wrap64_id by lia.
  change (List.last (x :: y :: a) 0) with (List.last (y :: a) 0).
  cbn [hd]. lia.
Qed.

(** X20: for a non-empty ascending list of positions of the data model
    (non-negative, fitting the int64 array) the fragment lengths are the
    plain differences of neighbouring positions, and they add up to the
    distance from the first position to the last. *)
Theorem possible_frag_len_total (positions : list Z) :
  ascending positions = true ->
  all_positions positions = true ->
  positions <> [] ->
  (forall i, (S i < length positions)%nat ->
     nth i (possible_frag_len positions) 0
     = nth (S i) positions 0 - nth i positions 0) /\
  fold_right Z.add 0 (possible_frag_len positions)
  = List.last positions 0 - hd 0 positions.
Proof.
  intros Hasc Hpos Hne. split.
  - intros i Hi. rewrite possible_frag_len_nth by assumption.
    pose proof (ascending_nth positions Hasc i (S i) ltac:(lia) Hi). lia.
  - apply possible_frag_len_sum; assumption.
Qed.

Lemma possible_frag_len_total_witness :
  (forall i, (S i < length [100; 250; 300])%nat ->
     nth i (possible_frag_len [100; 250; 300]) 0
     = nth (S i) [100; 250; 300] 0 - nth i [100; 250; 300] 0) /\
  fold_right Z.add 0 (possible_frag_len [100; 250; 300])
  = List.last [100; 250; 300] 0 - hd 0 [100; 250; 300].
Proof.
  apply (possible_frag_len_total [100; 250; 300]);
    [reflexivity | reflexivity | discriminate].
Defined.

(** ** remove_redundancy *)

Section RemoveRedundancy.

Variable Bedpe : Type.
Variable is_rep_with : Bedpe -> Bedpe -> Z -> bool.
Variable distance : Z.

Local Abbreviation loop :=
  (fun base f => remove_redundancy_loop is_rep_with base f distance).

Lemma remove_redundancy_loop_head (f : list Bedpe) :
  forall base, exists tl, loop base f = base :: tl.
Proof.
  induction f as [|another f IH]; intros base; cbn [remove_redundancy_loop].
  - eauto.
  - destruct (is_rep_with base another distance); [apply IH | eauto].
Qed.

(** X21: the first line of the file is always written first, and the lines
    written are lines of the file in file order: nothing is added, nothing is
    moved, and at least one line is written. *)
Theorem remove_redundancy_loop_sublist (base : Bedpe) (f : list Bedpe) :
  (exists tl, remove_redundancy_loop is_rep_with base f distance = base :: tl) /\
  sublist (remove_redundancy_loop is_rep_with base f distance) (base :: f).
Proof.
  split; [apply remove_redundancy_loop_head|].
  revert base. induction f as [|another f IH]; intros base;
    cbn [remove_redundancy_loop].
  - reflexivity.
  - destruct (is_rep_with base another distance).
    + transitivity (base :: f); [apply IH|].
      apply sublist_skip, sublist_cons. reflexivity.
    + apply sublist_skip. apply IH.
Qed.

Lemma remove_redundancy_loop_adjacent (f : list Bedpe) :
  forall base i b1 b2,
    loop base f !! i = Some b1 ->
    loop base f !! S i = Some b2 ->
    is_rep_with b1 b2 distance = false.
Proof.
  induction f as [|another f IH]; intros base i b1 b2;
    cbn [remove_redundancy_loop].
  - destruct i; discriminate.
  - destruct (is_rep_with base another distance) eqn:Hrep; [apply IH|].
    destruct i as [|i].
    + destruct (remove_redundancy_loop_head f another) as [tl Htl].
      cbn beta in Htl. rewrite Htl. cbn. intros [= <-] [= <-]. exact Hrep.
    + cbn. apply IH.
Qed.

(** X22: no two lines written one after the other are a replication: the
    later one is not a replication of the earlier one. *)
Theorem remove_redundancy_loop_no_adjacent_replication
    (base : Bedpe) (f : list Bedpe) (i : nat) (b1 b2 : Bedpe) :
  remove_redundancy_loop is_rep_with base f distance !! i = Some b1 ->
  remove_redundancy_loop is_rep_with base f distance !! S i = Some b2 ->
  is_rep_with b1 b2 distance = false.
Proof. apply remove_redundancy_loop_adjacent. Qed.

(** X23: a line of the file is left out only as a replication of a line
    that is written: every line after the first is written itself or is a
    replication of some written line. *)
Theorem remove_redundancy_loop_drops_only_replications
    (base : Bedpe) (f : list Bedpe) (x : Bedpe) :
  In x f ->
  In x (remove_redundancy_loop is_rep_with base f distance) \/
  exists b, In b (remove_redundancy_loop is_rep_with base f distance) /\
            is_rep_with b x distance = true.
Proof.
  revert base. induction f as [|another f IH]; intros base Hx; [destruct Hx|].
  cbn [remove_redundancy_loop].
  destruct (is_rep_with base another distance) eqn:Hrep.
  - destruct Hx as [<-|Hx]; [|apply IH; exact Hx].
    right. exists base. split; [|exact Hrep].
    destruct (remove_redundancy_loop_head f base) as [tl Htl].
    cbn beta in Htl. rewrite Htl. left. reflexivity.
  - destruct Hx as [<-|Hx].
    + left. right.
      destruct (remove_redundancy_loop_head f another) as [tl Htl].
      cbn beta in Htl. rewrite Htl. left. reflexivity.
    + destruct (IH another Hx) as [Hin|(b & Hb & Hbx)].
      * left. right. exact Hin.
      * right. exists b. split; [right; exact Hb | exact Hbx].
Qed.

Lemma remove_redundancy_loop_fixed (f : list Bedpe) :
  forall base,
    (forall i b1 b2, (base :: f) !! i = Some b1 -> (base :: f) !! S i = Some b2 ->
                     is_rep_with b1 b2 distance = false) ->
    loop base f = base :: f.
Proof.
  induction f as [|another f IH]; intros base Hadj; [reflexivity|].
  cbn [remove_redundancy_loop].
  rewrite (Hadj 0%nat base another eq_refl eq_refl).
  f_equal. apply IH. intros i b1 b2 H1 H2. exact (Hadj (S i) b1 b2 H1 H2).
Qed.

(** X24: removing the redundancy a second time changes nothing: the loop
    run on the lines it has written writes the same lines again. *)
Theorem remove_redundancy_loop_idempotent (base : Bedpe) (f : list Bedpe) :
  match remove_redundancy_loop is_rep_with base f distance with
  | [] => False
  | base' :: f' =>
      remove_redundancy_loop is_rep_with base' f' distance = base' :: f'
  end.
Proof.
  pose proof (remove_redundancy_loop_adjacent f base) as Hadj.
  destruct (remove_redundancy_loop_head f base) as [tl Htl].
  cbn beta in Htl, Hadj. rewrite Htl in *.
  apply remove_redundancy_loop_fixed. exact Hadj.
Qed.

End RemoveRedundancy.

Lemma remove_redundancy_loop_no_adjacent_replication_witness :
  (fun a b d : Z => Z.abs (a - b) <=? d) 10 100 50 = false.
Proof.
  apply (remove_redundancy_loop_no_adjacent_replication Z
           (fun a b d => Z.abs (a - b) <=? d) 50 10 [20; 100; 120] 0 10 100);
    reflexivity.
Defined.

Lemma remove_redundancy_loop_drops_only_replications_witness :
  In 20 (remove_redundancy_loop (fun a b d => Z.abs (a - b) <=? d)
                                10 [20; 100; 120] 50) \/
  exists b, In b (remove_redundancy_loop (fun a b d => Z.abs (a - b) <=? d)
                                         10 [20; 100; 120] 50) /\
            (Z.abs (b - 20) <=? 50) = true.
Proof.
  apply (remove_redundancy_loop_drops_only_replications Z
           (fun a b d => Z.abs (a - b) <=? d) 50 10 [20; 100; 120] 20).
  simpl. auto.
Defined.

(** ** log_counts after a run of the pool *)

(** X25: the report of a run. With at least one worker process, once every
    worker of the pool has met its [None], the file [log_counts] writes from
    the shared counts has the three counts of the single loop over all
    records, and as its total the number of records minus the number of
    records that loop skips with a warning. *)
Theorem log_counts_total_after_pool (rest_sites : gmap string (list Z))
    (rest_site_len threshold_span : Z) (chunks : list (list BedpeItems))
    (processes : nat) (p : pool) :
  (0 < processes)%nat ->
  rtc (pool_step rest_sites rest_site_len threshold_span)
      (pool_init chunks processes) p ->
  all_exited (p_workers p) = true ->
  exists d n s r,
    worker_chunk rest_sites rest_site_len threshold_span init_state
                 (concat chunks) = Ok d /\
    l_counts d = (n, s, r) /\
    log_counts_file (p_counts p)
    = ["normal" +:+ tab +:+ str_int n +:+ newline;
       "self-ligation" +:+ tab +:+ str_int s +:+ newline;
       "re-ligation" +:+ tab +:+ str_int r +:+ newline;
       "total" +:+ tab
         +:+ str_int (Z.of_nat (length (concat chunks))
                      - Z.of_nat (length (warnings d)))
         +:+ newline].
Proof.
  intros Hpos Hrun Hall.
  destruct (pool_inv_reachable _ _ _ _ _ _ Hrun)
    as (taken & todo & k & Hchunks & Hq & Hlen & Hk & Htodo & Hcounts).
  destruct (all_exited_facts _ Hall) as (Hnd & Hex & Hzero).
  assert (k = 0)%nat as -> by lia.
  rewrite (Htodo Hpos) in *. rewrite app_nil_r in Hchunks. subst taken.
  destruct (Hcounts Hnd) as (d & Hd & Hsum).
  rewrite Hzero, counts_add_zero_r in Hsum.
  pose proof (worker_chunk_delta rest_sites rest_site_len threshold_span
                (concat chunks)) as [[e He]|(d' & Hd' & _ & Hacc)].
  { rewrite He in Hd. discriminate. }
  rewrite Hd', state_app_init_l in Hd. injection Hd as ->.
  destruct (l_counts d) as [[n s] r] eqn:Hl.
  exists d, n, s, r. rewrite Hd', state_app_init_l.
  split; [reflexivity|]. split; [exact Hl|].
  rewrite Hsum. unfold log_counts_file.
  unfold accounted in Hacc. rewrite Hl in Hacc.
  replace (Z.of_nat (length (concat chunks)) - Z.of_nat (length (warnings d)))
    with (n + s + r) by lia.
  reflexivity.
Qed.

Lemma log_counts_total_after_pool_witness :
  exists d n s r,
    worker_chunk demo_sites 10 1000 init_state
      (concat [[mkBedpeItems "chr1" 150 190 "chr1" 210 240 []];
               [mkBedpeItems "chrX" 150 190 "chrX" 210 240 []]]) = Ok d /\
    l_counts d = (n, s, r) /\
    log_counts_file (0, 0, 1)
    = ["normal" +:+ tab +:+ str_int n +:+ newline;
       "self-ligation" +:+ tab +:+ str_int s +:+ newline;
       "re-ligation" +:+ tab +:+ str_int r +:+ newline;
       "total" +:+ tab
         +:+ str_int (Z.of_nat (length (concat
                        [[mkBedpeItems "chr1" 150 190 "chr1" 210 240 []];
                         [mkBedpeItems "chrX" 150 190 "chrX" 210 240 []]]))
                      - Z.of_nat (length (warnings d)))
         +:+ newline].
Proof.
  eassert (Hrun : rtc (pool_step demo_sites 10 1000)
                   (pool_init
                      [[mkBedpeItems "chr1" 150 190 "chr1" 210 240 []];
                       [mkBedpeItems "chrX" 150 190 "chrX" 210 240 []]] 1) _).
  { eapply rtc_l.
    { eapply (step_chunk _ _ _ _ _ _ 0%nat); [reflexivity | vm_compute; reflexivity]. }
    eapply rtc_l.
    { eapply (step_chunk _ _ _ _ _ _ 0%nat); [reflexivity | vm_compute; reflexivity]. }
    eapply rtc_l.
    { eapply (step_exit _ _ _ _ _ _ 0%nat). reflexivity. }
    apply rtc_refl. }
  exact (log_counts_total_after_pool demo_sites 10 1000 _ 1 _
           ltac:(lia) Hrun eq_refl).
Defined.

(** ** make_batchs *)

Section MakeBatchs.

Variable A : Type.
Variable fa_recs : list A.
Hypothesis fa_recs_nonempty : fa_recs <> [].

Let L := length fa_recs.

Lemma fa_recs_length_pos : (0 < L)%nat.
Proof. unfold L. destruct fa_recs; [congruence|simpl; lia]. Qed.

Lemma drop_fa_recs_cases (o : nat) :
  (o <= L)%nat ->
  (o = L /\ drop o fa_recs = []) \/
  (exists x, (o < L)%nat /\ fa_recs !! o = Some x /\
             drop o fa_recs = x :: drop (S o) fa_recs).
Proof.
  intros Ho. destruct (decide (o = L)) as [->|Hne].
  - left. split; [reflexivity|]. apply drop_all.
  - right. assert (Hlt : (o < L)%nat) by lia.
    destruct (lookup_lt_is_Some_2 fa_recs o Hlt) as [x Hx].
    exists x. split; [assumption|]. split; [assumption|].
    apply drop_S. exact Hx.
Qed.

Lemma make_batch_lookup :
  forall rounds o batch,
    (o <= L)%nat ->
    exists b o',
      make_batch fa_recs rounds (drop o fa_recs) batch
        = Some (batch ++ b, drop o' fa_recs) /\
      (o' <= L)%nat /\
      length b = rounds /\
      (o' mod L = (o + rounds) mod L)%nat /\
      forall j x, b !! j = Some x -> fa_recs !! ((o + j) mod L)%nat = Some x.
Proof.
  pose proof fa_recs_length_pos as HL.
  induction rounds as [|rounds IH]; intros o batch Ho.
  - exists [], o. cbn [make_batch]. rewrite app_nil_r, Nat.add_0_r.
    repeat split; try assumption. intros j x Hj. destruct j; discriminate.
  - cbn [make_batch].
    destruct (drop_fa_recs_cases o Ho) as [[-> Hd]|(x & Hlt & Hx & Hd)];
      rewrite Hd.
    + destruct fa_recs as [|x rest] eqn:Hrecs; [congruence|].
      rewrite <- Hrecs in *.
      assert (Hrest : rest = drop 1 fa_recs) by (rewrite Hrecs; reflexivity).
      rewrite Hrest.
      destruct (IH 1%nat (batch ++ [x]) ltac:(lia))
        as (b & o' & Hrun & Ho' & Hlen & Hmod & Hlook).
      exists (x :: b), o'. rewrite Hrun, <- app_assoc.
      split; [reflexivity|]. split; [assumption|].
      split; [simpl; lia|]. split.
      * rewrite Hmod.
        replace (L + S rounds)%nat with (1 + rounds + 1 * L)%nat by lia.
        rewrite Nat.Div0.mod_add. reflexivity.
      * intros j y Hj.
        replace (L + j)%nat with (j + 1 * L)%nat by lia.
        rewrite Nat.Div0.mod_add.
        destruct j as [|j].
        -- injection Hj as <-. rewrite Nat.Div0.mod_0_l, Hrecs. reflexivity.
        -- apply Hlook. exact Hj.
    + destruct (IH (S o) (batch ++ [x]) ltac:(lia))
        as (b & o' & Hrun & Ho' & Hlen & Hmod & Hlook).
      exists (x :: b), o'. rewrite Hrun, <- app_assoc.
      split; [reflexivity|]. split; [assumption|].
      split; [simpl; lia|]. split.
      * rewrite Hmod. f_equal. lia.
      * intros j y Hj. destruct j as [|j].
        -- injection Hj as <-. rewrite Nat.add_0_r, Nat.mod_small by lia.
           exact Hx.
        -- replace (o + S j)%nat with (S o + j)%nat by lia.
           apply Hlook. exact Hj.
Qed.

Lemma make_batchs_from_lookup (batch_size : nat) :
  forall n_batch o,
    (o <= L)%nat ->
    exists batches,
      make_batchs_from fa_recs n_batch batch_size (drop o fa_recs)
        = Some batches /\
      length batches = n_batch /\
      forall k b, batches !! k = Some b ->
        length b = batch_size /\
        forall j x, b !! j = Some x ->
          fa_recs !! ((o + k * batch_size + j) mod L)%nat = Some x.
Proof.
  pose proof fa_recs_length_pos as HL.
  induction n_batch as [|n_batch IH]; intros o Ho; cbn [make_batchs_from].
  - exists []. split; [reflexivity|]. split; [reflexivity|].
    intros k b Hk. destruct k; discriminate.
  - destruct (make_batch_lookup batch_size o [] Ho)
      as (b & o' & Hrun & Ho' & Hlen & Hmod & Hlook).
    rewrite Hrun. cbn [app].
    destruct (IH o' Ho') as (batches & Hrest & Hn & Hall).
    rewrite Hrest. exists (b :: batches).
    split; [reflexivity|]. split; [simpl; lia|].
    intros k b' Hk. destruct k as [|k].
    + injection Hk as <-. split; [assumption|].
      intros j x Hj. rewrite Nat.add_0_r. apply Hlook. exact Hj.
    + destruct (Hall k b' Hk) as [Hlen' Hlook'].
      split; [assumption|]. intros j x Hj.
      specialize (Hlook' j x Hj).
      rewrite <- Hlook'. f_equal. symmetry.
      replace (o' + k * batch_size + j)%nat
        with (o' + (k * batch_size + j))%nat by lia.
      rewrite <- Nat.Div0.add_mod_idemp_l, Hmod, Nat.Div0.add_mod_idemp_l.
      f_equal. lia.
Qed.

(** X26: on a non-empty list of records [make_batchs] yields exactly
    [n_batch] batches of exactly [batch_size] records, taken from the records
    round-robin: record [j] of batch [k] is record
    [(k * batch_size + j) mod len(fa_recs)]. *)
Theorem make_batchs_round_robin (n_batch batch_size : nat) :
  exists batches,
    make_batchs fa_recs n_batch batch_size = Some batches /\
    length batches = n_batch /\
    forall k b, batches !! k = Some b ->
      length b = batch_size /\
      forall j x, b !! j = Some x ->
        fa_recs !! ((k * batch_size + j) mod length fa_recs)%nat = Some x.
Proof.
  pose proof fa_recs_length_pos as HL.
  destruct (make_batchs_from_lookup batch_size n_batch L ltac:(lia))
    as (batches & Hrun & Hn & Hall).
  unfold L in Hrun at 1. rewrite drop_all in Hrun.
  exists batches. split; [exact Hrun|]. split; [exact Hn|].
  intros k b Hk. destruct (Hall k b Hk) as [Hlen Hlook].
  split; [exact Hlen|]. intros j x Hj. rewrite <- (Hlook j x Hj).
  f_equal. fold L.
  replace (L + k * batch_size + j)%nat with (k * batch_size + j + 1 * L)%nat
    by lia.
  rewrite Nat.Div0.mod_add. reflexivity.
Qed.

End MakeBatchs.

Lemma make_batchs_round_robin_witness :
  exists batches,
    make_batchs ["r0"; "r1"; "r2"] 2 2 = Some batches /\
    length batches = 2%nat /\
    forall k b, batches !! k = Some b ->
      length b = 2%nat /\
      forall j x, b !! j = Some x ->
        ["r0"; "r1"; "r2"] !! ((k * 2 + j) mod length ["r0"; "r1"; "r2"])%nat
        = Some x.
Proof.
  apply (make_batchs_round_robin string ["r0"; "r1"; "r2"]). discriminate.
Defined.

Lemma make_batchs_from_zero_size {A : Type} (fa_recs : list A) :
  forall n_batch pending,
    make_batchs_from fa_recs n_batch 0 pending = Some (replicate n_batch []).
Proof.
  induction n_batch as [|n_batch IH]; intros pending; [reflexivity|].
  cbn [make_batchs_from make_batch]. rewrite IH. reflexivity.
Qed.

(** X27: without records there is nothing to cycle over: [make_batchs]
    fails at its first [next(iter)], unless it never calls it, which is when
    no batch is asked for or the batches are to be empty (then it yields
    [n_batch] empty batches). *)
Theorem make_batchs_no_records {A : Type} (n_batch batch_size : nat) :
  make_batchs (@nil A) n_batch batch_size
  = if (n_batch =? 0)%nat || (batch_size =? 0)%nat
    then Some (replicate n_batch [])
    else None.
Proof.
  unfold make_batchs.
  destruct batch_size as [|batch_size].
  - rewrite orb_true_r. apply make_batchs_from_zero_size.
  - destruct n_batch as [|n_batch]; reflexivity.
Qed.
